(** * linux-utcp: the snapshot collectors, embedded and verified

    A shallow embedding of the collectors in
    [src/linux_utcp/commands/{system,process,network,service}.py].

    Conventions of the embedding.
    - A Python [int] is a [Z]; a finite Python [float] is the rational [Q]
      it denotes exactly (NaN and the infinities are not modelled). The
      conversion of an [int] to a [float] rounds to 53 bits; a division by
      1024.0 and a comparison are exact; [round] and the [.1f] format
      round the exact value, ties to even, and their outcome is kept as
      the decimal itself.
    - A Python [str] is the [string] of its UTF-8 bytes. Comparing,
      joining, searching and splitting at an ASCII character are the same
      on the bytes as on the characters; white space is recognised in its
      encoded form, every character [str.isspace] accepts. The case
      conversions follow the Unicode database: a collector that calls one
      takes it as an argument, [upper] and [lower] being what they are on
      ASCII text.
    - [psutil], [subprocess] and the files read are the platform: what they
      return (or raise) is an input of the embedded function.
    - An exception that an [except] clause of the source names is a
      constructor of an error type; a function that can let one escape
      returns an [outcome]. *)

From Stdlib Require Import ZArith QArith Qround Qabs Lia Lqa Sorted Permutation.
From Stdlib Require Import Ascii String.
From stdpp Require Import gmap strings pretty list sorting.

Local Open Scope string_scope.
Local Open Scope Z_scope.

(** ** Python built-ins used by the collectors *)

Module Py.

(** What a call gives back: a value, or an exception that escapes it. *)
Inductive outcome (E A : Type) : Type :=
  | Returned (a : A)
  | Raised (e : E).
Arguments Returned {E A} a.
Arguments Raised {E A} e.

(** *** Numbers *)

Definition Qltb (x y : Q) : bool := negb (Qle_bool y x).

(** Rounding a rational to the nearest integer, exact ties to the even
    one: the rule of both [round(x, n)] and the [.nf] format, which round
    the exact binary value. *)
Definition round_half_even (x : Q) : Z :=
  let f := Qfloor x in
  match Qcompare (x - inject_Z f) (1 # 2) with
  | Lt => f
  | Gt => f + 1
  | Eq => if Z.even f then f else f + 1
  end.

(** [round(x, ndigits)]: the decimal with [ndigits] fractional digits
    nearest to [x]. *)
Definition round (x : Q) (ndigits : nat) : Q :=
  Qmake (round_half_even (x * inject_Z (10 ^ Z.of_nat ndigits)))
        (Z.to_pos (10 ^ Z.of_nat ndigits)).

(** [float(n)] for an [int]: the nearest double (53 significant bits, ties
    to even); [None] is Python's OverflowError. *)
Definition float_of_int (n : Z) : option Q :=
  let a := Z.abs n in
  let e := Z.log2 a - 52 in
  let m :=
    if e <=? 0 then a
    else
      let q := a / 2 ^ e in
      let r := a mod 2 ^ e in
      let h := 2 ^ (e - 1) in
      (if (r <? h) || ((r =? h) && Z.even q) then q else q + 1) * 2 ^ e in
  if 2 ^ 1024 <=? m then None else Some (inject_Z (Z.sgn n * m)).

(** A number as Python has it at run time. *)
Inductive num : Type :=
  | PyInt (n : Z)
  | PyFloat (x : Q).

Definition num_abs (v : num) : Q :=
  match v with
  | PyInt n => inject_Z (Z.abs n)
  | PyFloat x => Qabs x
  end.

(** [f"{v:.1f}"]: one fractional digit; an [int] is converted first. *)
Definition format_f1_Q (x : Q) : string :=
  let t := round_half_even (x * 10) in
  (if Qltb x 0 then "-" else "")
    +:+ pretty (Z.abs t / 10) +:+ "." +:+ pretty (Z.abs t mod 10).

Definition format_f1 (v : num) : option string :=
  match v with
  | PyInt n => x ← float_of_int n; Some (format_f1_Q x)
  | PyFloat x => Some (format_f1_Q x)
  end.

(** [v / 1024.0]: true division by a float converts an [int] first. *)
Definition truediv_1024 (v : num) : option Q :=
  match v with
  | PyInt n => x ← float_of_int n; Some (x / 1024)%Q
  | PyFloat x => Some (x / 1024)%Q
  end.

(** *** Strings *)

Definition code (c : ascii) : N := N_of_ascii c.

(** White space as [str.isspace], [str.split()] and [str.strip()] know
    it: U+0009..U+000D, U+001C..U+0020, U+0085, U+00A0, U+1680,
    U+2000..U+200A, U+2028, U+2029, U+202F, U+205F and U+3000. [isspace]
    is the test of the one-byte ones. *)
Definition isspace (c : ascii) : bool :=
  ((9 <=? code c) && (code c <=? 13) || (28 <=? code c) && (code c <=? 32))%N.

(** The white-space characters of two and of three bytes, by their bytes. *)
Definition isspace2 (c d : ascii) : bool :=
  ((code c =? 194) && ((code d =? 133) || (code d =? 160)))%N.

Definition isspace3 (c d e : ascii) : bool :=
  ((code c =? 225) && (code d =? 154) && (code e =? 128)
   || (code c =? 226) && (code d =? 128)
      && ((128 <=? code e) && (code e <=? 138)
          || (168 <=? code e) && (code e <=? 169) || (code e =? 175))
   || (code c =? 226) && (code d =? 129) && (code e =? 159)
   || (code c =? 227) && (code d =? 128) && (code e =? 128))%N.

(** The number of bytes of the white-space character a text starts with;
    zero when it starts with none. *)
Definition space_len (s : string) : nat :=
  match s with
  | String c s1 =>
      if isspace c then 1%nat
      else match s1 with
           | String d s2 =>
               if isspace2 c d then 2%nat
               else match s2 with
                    | String e _ => if isspace3 c d e then 3%nat else 0%nat
                    | EmptyString => 0%nat
                    end
           | EmptyString => 0%nat
           end
  | EmptyString => 0%nat
  end.

Definition upper_char (c : ascii) : ascii :=
  if ((97 <=? code c) && (code c <=? 122))%N
  then ascii_of_N (code c - 32) else c.

Definition lower_char (c : ascii) : ascii :=
  if ((65 <=? code c) && (code c <=? 90))%N
  then ascii_of_N (code c + 32) else c.

Fixpoint map_chars (f : ascii → ascii) (s : string) : string :=
  match s with
  | EmptyString => EmptyString
  | String c s' => String (f c) (map_chars f s')
  end.

(** [s.upper()] and [s.lower()] for a text of ASCII characters. They do not
    touch a byte outside ASCII, where Python consults the Unicode database:
    the collectors take the conversion as an argument, and these two are
    what it is on ASCII text. *)
Definition upper : string → string := map_chars upper_char.
Definition lower : string → string := map_chars lower_char.

Definition is_ascii (s : string) : Prop :=
  Forall (λ c, (code c < 128)%N) (list_ascii_of_string s).

(** [s.endswith(suffix)]: some tail of [s] is [suffix]. *)
Fixpoint endswith (s suffix : string) : bool :=
  if String.eqb s suffix then true
  else match s with
       | EmptyString => false
       | String _ s' => endswith s' suffix
       end.

(** [needle in s]. *)
Fixpoint contains (needle s : string) : bool :=
  if String.prefix needle s then true
  else match s with
       | EmptyString => false
       | String _ s' => contains needle s'
       end.

(** [s.split(sep)] for a one-character separator: never empty, and an
    empty field between two separators is kept. *)
Fixpoint split_on (sep : ascii) (s : string) : list string :=
  match s with
  | EmptyString => [EmptyString]
  | String c s' =>
      if Ascii.eqb c sep then EmptyString :: split_on sep s'
      else match split_on sep s' with
           | [] => [String c EmptyString]
           | w :: ws => String c w :: ws
           end
  end.

(** [s.split()]: the maximal runs of characters that are not white space.
    [cur] is the field being read, reversed; [skip] counts the bytes still
    to pass of a white-space character that has been recognised. *)
Fixpoint split_go (skip : nat) (cur : option string) (s : string) : list string :=
  match s with
  | EmptyString => option_list (String.rev <$> cur)
  | String c s' =>
      match skip with
      | S k => split_go k cur s'
      | O =>
          match space_len s with
          | S k => option_list (String.rev <$> cur) ++ split_go k None s'
          | O => split_go 0 (Some (String c (default EmptyString cur))) s'
          end
      end
  end.

Definition split : string → list string := split_go 0 None.

(** [s.lstrip()]. *)
Fixpoint lstrip_go (skip : nat) (s : string) : string :=
  match s with
  | EmptyString => EmptyString
  | String c s' =>
      match skip with
      | S k => lstrip_go k s'
      | O =>
          match space_len s with
          | S k => lstrip_go k s'
          | O => s
          end
      end
  end.

Definition lstrip : string → string := lstrip_go 0.

(** A text of white space only. *)
Definition blank (s : string) : bool :=
  match lstrip s with
  | EmptyString => true
  | _ => false
  end.

(** [s.rstrip()]: the text up to its last character that is not white
    space. *)
Fixpoint rstrip (s : string) : string :=
  match s with
  | EmptyString => EmptyString
  | String c s' => if blank s then EmptyString else String c (rstrip s')
  end.

(** [s.strip()]. *)
Definition strip (s : string) : string := rstrip (lstrip s).

(** The truth value of a [str]. *)
Definition truthy (s : string) : bool :=
  match s with EmptyString => false | _ => true end.

(** [sep.join(l)]. *)
Fixpoint join (sep : string) (l : list string) : string :=
  match l with
  | [] => EmptyString
  | [w] => w
  | w :: l' => w +:+ sep +:+ join sep l'
  end.

(** [s.strip(c)] for a one-character set. *)
Fixpoint lstrip_char (c : ascii) (s : string) : string :=
  match s with
  | EmptyString => EmptyString
  | String a s' => if Ascii.eqb a c then lstrip_char c s' else s
  end.

Definition strip_char (c : ascii) (s : string) : string :=
  String.rev (lstrip_char c (String.rev (lstrip_char c s))).

(** [s.split(sep, 1)]: the text itself, or what stands before and after
    the first separator. *)
Fixpoint split_once (sep : ascii) (s : string) : list string :=
  match s with
  | EmptyString => [EmptyString]
  | String c s' =>
      if Ascii.eqb c sep then [EmptyString; s']
      else match split_once sep s' with
           | [] => [String c EmptyString]
           | w :: ws => String c w :: ws
           end
  end.

(** *** list.sort *)

(** CPython's [list.sort] is stable and compares keys with [<] only; with
    [reverse=True] it reverses the list, sorts it stably and reverses the
    outcome, so that equal keys keep their order. Every stable sort
    computes the same list: it is written here as an insertion sort. *)
Fixpoint insert_by {A} (lt : A → A → bool) (x : A) (l : list A) : list A :=
  match l with
  | [] => [x]
  | y :: l' => if lt y x then y :: insert_by lt x l' else x :: l
  end.

Definition stable_sort {A} (lt : A → A → bool) (l : list A) : list A :=
  foldr (insert_by lt) [] l.

Definition key_lt {A} (key : A → Q) (a b : A) : bool := Qltb (key a) (key b).

Definition list_sort {A} (key : A → Q) (reverse : bool) (l : list A) : list A :=
  if reverse then rev (stable_sort (key_lt key) (rev l))
  else stable_sort (key_lt key) l.

(** Ascending keys, and the elements of one key. *)
Definition key_le {A} (key : A → Q) (a b : A) : Prop := (key a <= key b)%Q.
Definition same_key {A} (key : A → Q) (k : Q) (a : A) : bool := Qeq_bool (key a) k.

(** *** Files and programs *)

(** The [OSError] family as the [except] clauses tell its members apart;
    [OSError] stands for the ones they do not name. *)
Inductive os_error : Type :=
  | FileNotFoundError
  | PermissionError
  | OSError.

(** What opening a file or starting a program raises: an [OSError] (the
    file or the program is not there, may not be used, or fails in another
    way); what was read or printed is not text in the locale's encoding; an
    argument holds a NUL. *)
Inductive io_error : Type :=
  | Os (e : os_error)
  | UnicodeDecodeError
  | ValueError.

(** What [subprocess.run] raises: with [check=True] a program that ran and
    exited with a status other than zero is an error of its own. *)
Inductive subprocess_error : Type :=
  | CalledProcessError (returncode : Z)
  | Io (e : io_error).

Record CompletedProcess : Type := {
  stdout : string;
  returncode : Z
}.

(** The platform runs an argument vector to its end, or fails to. *)
Definition exec : Type := list string → outcome io_error CompletedProcess.

(** [subprocess.run(args, capture_output=True, text=True, check=check)]. *)
Definition subprocess_run (os : exec) (args : list string) (check : bool)
  : outcome subprocess_error CompletedProcess :=
  match os args with
  | Raised e => Raised (Io e)
  | Returned cp =>
      if check && negb (returncode cp =? 0)
      then Raised (CalledProcessError (returncode cp))
      else Returned cp
  end.

End Py.

(** ** commands/system.py *)

Module System.
Import Py.

Inductive error : Type := OverflowError.

(** The [for unit in ...] loop of [_human_readable_size], on the units that
    are left; the empty list is the statement after the loop. *)
Fixpoint size_loop (units : list string) (size_bytes : num)
  : outcome error string :=
  match units with
  | [] =>
      match format_f1 size_bytes with
      | Some s => Returned (s +:+ "P")
      | None => Raised OverflowError
      end
  | unit :: units' =>
      if Qltb (num_abs size_bytes) 1024 then
        match format_f1 size_bytes with
        | Some s => Returned (s +:+ unit)
        | None => Raised OverflowError
        end
      else
        match truediv_1024 size_bytes with
        | Some x => size_loop units' (PyFloat x)
        | None => Raised OverflowError
        end
  end.

Definition units : list string := [""; "K"; "M"; "G"; "T"; "P"].

Definition _human_readable_size (size_bytes : Z) : outcome error string :=
  size_loop units (PyInt size_bytes).

(** [psutil.virtual_memory()] and [psutil.swap_memory()], the fields the
    collector reads. *)
Record svmem : Type := {
  vm_total : Z;
  vm_available : Z;
  vm_percent : Q;
  vm_used : Z;
  vm_free : Z
}.

Record sswap : Type := {
  sw_total : Z;
  sw_used : Z;
  sw_free : Z;
  sw_percent : Q
}.

Record memory_info : Type := {
  ram_total : Z;
  ram_available : Z;
  ram_used : Z;
  ram_used_percent : Q;
  ram_free : Z;
  swap_total : Z;
  swap_used : Z;
  swap_used_percent : Q;
  swap_free : Z
}.

Definition get_memory_info (ram : svmem) (swap : sswap) : memory_info :=
  {| ram_total := vm_total ram;
     ram_available := vm_available ram;
     ram_used := vm_used ram;
     ram_used_percent := round (vm_percent ram) 2;
     ram_free := vm_free ram;
     swap_total := sw_total swap;
     swap_used := sw_used swap;
     swap_used_percent := round (sw_percent swap) 2;
     swap_free := sw_free swap |}.

(** The memory invariant as the specification words it, for a rounding
    tolerance [tol] in bytes. *)
Definition spec_memory_invariant (tol : Z) (r : memory_info) : Prop :=
  Z.abs (ram_used r + ram_free r - ram_total r) <= tol ∧
  (Qabs (ram_used_percent r
         - round (inject_Z (ram_used r) / inject_Z (ram_total r) * 100) 2)
   <= 1 # 100)%Q.

(** The suffix index the specification computes: the floor of the
    base-1024 logarithm of [b + 1], clamped to the six suffixes. *)
Definition spec_unit_index (b : Z) : nat :=
  Z.to_nat (Z.min 5 (Z.log2 (b + 1) / 10)).

(** The suffix index the loop reaches: the floor of the base-1024
    logarithm of [b] itself ([0] for [b = 0]). *)
Definition unit_index (b : Z) : nat := Z.to_nat (Z.log2 b / 10).

(** [x] divided by 1024, [k] times over, as the loop does it. *)
Fixpoint scaled (x : Q) (k : nat) : Q :=
  match k with
  | O => x
  | S k' => scaled (x / 1024)%Q k'
  end.

(** A snapshot of a 16 GiB machine: 2 GiB free, 6 GiB used, 9 GiB
    available (buffers and page cache make up the rest), and the percent
    [psutil] derives from [total - available]. *)
Definition GiB : Z := 2 ^ 30.

Definition ram_16GiB : svmem :=
  {| vm_total := 16 * GiB; vm_available := 9 * GiB; vm_percent := 438 # 10;
     vm_used := 6 * GiB; vm_free := 2 * GiB |}.

Definition swap_2GiB : sswap :=
  {| sw_total := 2 * GiB; sw_used := 0; sw_free := 2 * GiB; sw_percent := 0 |}.

(** *** Disks *)

(** [psutil.disk_partitions()] and [psutil.disk_usage(path)], the fields
    the collector reads. *)
Record sdiskpart : Type := {
  device : string;
  mountpoint : string;
  fstype : string
}.

Record sdiskusage : Type := {
  du_total : Z;
  du_used : Z;
  du_free : Z;
  du_percent : Q
}.

Record filesystem_info : Type := {
  filesystem : string;
  size : string;
  used : string;
  available : string;
  use_percent : Q;
  mounted_on : string
}.

(** The dict built for a partition whose usage was read; the three sizes
    are converted in this order, and an OverflowError is not caught. *)
Definition filesystem_entry (partition : sdiskpart) (usage : sdiskusage)
  : outcome error filesystem_info :=
  match _human_readable_size (du_total usage) with
  | Raised e => Raised e
  | Returned size =>
      match _human_readable_size (du_used usage) with
      | Raised e => Raised e
      | Returned used =>
          match _human_readable_size (du_free usage) with
          | Raised e => Raised e
          | Returned available =>
              Returned {| filesystem := device partition;
                          size := size;
                          used := used;
                          available := available;
                          use_percent := round (du_percent usage) 1;
                          mounted_on := mountpoint partition |}
          end
      end
  end.

(** The loop over the partitions, [filesystems] being the list so far.
    [psutil.disk_usage] raises an [OSError]; the [except] clause names
    [PermissionError] and [OSError], which is the whole family. *)
Fixpoint disk_loop (disk_usage : string → outcome os_error sdiskusage)
    (partitions : list sdiskpart) (filesystems : list filesystem_info)
  : outcome error (list filesystem_info) :=
  match partitions with
  | [] => Returned filesystems
  | partition :: partitions' =>
      (* Skip special filesystems *)
      if String.eqb (fstype partition) "" || String.eqb (fstype partition) "squashfs"
      then disk_loop disk_usage partitions' filesystems
      else
        match disk_usage (mountpoint partition) with
        | Raised _ => disk_loop disk_usage partitions' filesystems
        | Returned usage =>
            match filesystem_entry partition usage with
            | Raised e => Raised e
            | Returned filesystem_info =>
                disk_loop disk_usage partitions' (filesystems ++ [filesystem_info])
            end
        end
  end.

Definition get_disk_usage (disk_usage : string → outcome os_error sdiskusage)
    (partitions : list sdiskpart) : outcome error (list filesystem_info) :=
  disk_loop disk_usage partitions [].

(** A partition is listed when its type is neither empty nor squashfs and
    its usage can be read. *)
Definition listed (disk_usage : string → outcome os_error sdiskusage)
    (partition : sdiskpart) : bool :=
  negb (String.eqb (fstype partition) "" || String.eqb (fstype partition) "squashfs")
  && match disk_usage (mountpoint partition) with
     | Returned _ => true
     | Raised _ => false
     end.

(** Sizes that a double can hold. *)
Definition sizes_in_range (usage : sdiskusage) : Prop :=
  Z.abs (du_total usage) < 2 ^ 1023 ∧ Z.abs (du_used usage) < 2 ^ 1023 ∧
  Z.abs (du_free usage) < 2 ^ 1023.

(** A host with a root disk, a snap image, a stale network mount and a
    data disk. *)
Definition partitions_sample : list sdiskpart :=
  [{| device := "/dev/sda1"; mountpoint := "/"; fstype := "ext4" |};
   {| device := "/dev/loop0"; mountpoint := "/snap/core/1"; fstype := "squashfs" |};
   {| device := "nas:/export"; mountpoint := "/mnt/nas"; fstype := "nfs" |};
   {| device := "/dev/sdb1"; mountpoint := "/data"; fstype := "xfs" |}].

Definition disk_usage_sample (path : string) : outcome os_error sdiskusage :=
  if String.eqb path "/mnt/nas" then Raised OSError
  else Returned {| du_total := 500 * GiB; du_used := 120 * GiB;
                   du_free := 380 * GiB; du_percent := 24 |}.

(** *** CPU *)

Record scpufreq : Type := { freq_current : Q; freq_min : Q; freq_max : Q }.

(** What [get_cpu_info] reads: the lines of /proc/cpuinfo (or what opening
    the file, or reading it before the loop is done, raises), the two core
    counts, the frequency query (which may answer [None], or raise
    anything, here with its text), the two utilisation samples and the
    load averages ([None]: OSError, unobtainable). *)
Record cpu_platform : Type := {
  cpuinfo : outcome io_error (list string);
  cpu_count_physical : option Z;
  cpu_count_logical : option Z;
  cpu_freq : outcome string (option scpufreq);
  cpu_percent_percpu : list Q;
  cpu_percent_overall : Q;
  getloadavg : option (Q * Q * Q)
}.

Record cpu_info : Type := {
  cpu_model : string;
  physical_cores : Z;
  logical_cores : Z;
  cpu_freq_current : Q;
  cpu_freq_min : Q;
  cpu_freq_max : Q;
  cpu_usage_per_core : list Q;
  overall_cpu_usage : Q;
  load_average_1m : Q;
  load_average_5m : Q;
  load_average_15m : Q
}.

(** The exceptions that escape [get_cpu_info]: the index 1 of a line
    without a colon, the load averages, and what reading the file raises
    other than [FileNotFoundError]. *)
Inductive cpu_error : Type :=
  | IndexError
  | LoadUnavailable
  | Unreadable (e : io_error).

(** The [for line in f] loop with its [else]: the first line that mentions
    the model decides. *)
Fixpoint model_name (lines : list string) : outcome cpu_error string :=
  match lines with
  | [] => Returned "Unknown"
  | line :: lines' =>
      if contains "model name" line then
        match split_on ":" line !! 1%nat with
        | Some field => Returned (strip field)
        | None => Raised IndexError
        end
      else model_name lines'
  end.

(** ['model name' in line]. *)
Definition mentions_model (line : string) : Prop :=
  contains "model name" line = true.

(** [n or 0] for an optional count. *)
Definition or_zero (n : option Z) : Z :=
  match n with
  | Some n => n
  | None => 0
  end.

Definition get_cpu_info (os : cpu_platform) : outcome cpu_error cpu_info :=
  match match cpuinfo os with
        | Returned lines => model_name lines
        | Raised (Os FileNotFoundError) => Returned "Unknown"
        | Raised e => Raised (Unreadable e)
        end with
  | Raised e => Raised e
  | Returned cpu_model =>
      let freq :=
        match cpu_freq os with
        | Returned (Some cpu_freq) =>
            (round (freq_current cpu_freq) 2, round (freq_min cpu_freq) 2,
             round (freq_max cpu_freq) 2)
        | _ => (0, 0, 0)%Q
        end in
      match getloadavg os with
      | None => Raised LoadUnavailable
      | Some (load1, load5, load15) =>
          Returned
            {| cpu_model := cpu_model;
               physical_cores := or_zero (cpu_count_physical os);
               logical_cores := or_zero (cpu_count_logical os);
               cpu_freq_current := freq.1.1;
               cpu_freq_min := freq.1.2;
               cpu_freq_max := freq.2;
               cpu_usage_per_core := cpu_percent_percpu os;
               overall_cpu_usage := cpu_percent_overall os;
               load_average_1m := round load1 2;
               load_average_5m := round load5 2;
               load_average_15m := round load15 2 |}
      end
  end.

(** A two-core virtual machine without a frequency interface. *)
Definition cpu_platform_sample : cpu_platform :=
  {| cpuinfo := Returned ["processor" +:+ String "009" ": 0" +:+ String "010" "";
                      "model name" +:+ String "009" ": Virtual CPU @ 2.40GHz" +:+ String "010" "";
                      "model name" +:+ String "009" ": Other" +:+ String "010" ""];
     cpu_count_physical := None;
     cpu_count_logical := Some 2;
     cpu_freq := Raised "not supported";
     cpu_percent_percpu := [3 # 2; 0 # 1];
     cpu_percent_overall := 3 # 4;
     getloadavg := Some (5 # 100, 1 # 10, 1 # 8) |}.

(** *** System identity *)

(** What [get_system_info] reads besides the two [uptime] commands: the
    three [platform] strings and the lines of /etc/os-release (or what
    opening or reading the file raises). *)
Record system_platform : Type := {
  node : string;
  os_release_file : outcome io_error (list string);
  release : string;
  machine : string
}.

Record system_info : Type := {
  hostname : string;
  os : string;
  os_version : string;
  kernel : string;
  architecture : string;
  uptime : string;
  boot_time : string
}.

(** The exceptions that escape [get_system_info]: the ValueError of the
    unpacking [key, value = ...] of a list that is not a pair, what reading
    the file raises other than [FileNotFoundError], and what running
    [uptime] raises other than [CalledProcessError] and
    [FileNotFoundError]. *)
Inductive info_error : Type :=
  | UnpackError
  | ReadError (e : io_error)
  | RunError (e : subprocess_error).

Definition quote : ascii := "034".

(** The body of the loop over the lines of /etc/os-release. *)
Definition os_release_line (os_release : gmap string string) (line : string)
  : outcome info_error (gmap string string) :=
  if contains "=" line then
    match split_once "=" (rstrip line) with
    | [key; value] => Returned (<[key := strip_char quote value]> os_release)
    | _ => Raised UnpackError
    end
  else Returned os_release.

Fixpoint read_os_release (lines : list string) (os_release : gmap string string)
  : outcome info_error (gmap string string) :=
  match lines with
  | [] => Returned os_release
  | line :: lines' =>
      match os_release_line os_release line with
      | Returned os_release' => read_os_release lines' os_release'
      | Raised e => Raised e
      end
  end.

(** One of the two [uptime] commands: its output stripped, or Unknown when
    the program fails or is missing. *)
Definition uptime_text (run : exec) (flag : string) : outcome info_error string :=
  match subprocess_run run ["uptime"; flag] true with
  | Returned uptime_output => Returned (strip (stdout uptime_output))
  | Raised (CalledProcessError _) | Raised (Io (Os FileNotFoundError)) =>
      Returned "Unknown"
  | Raised e => Raised (RunError e)
  end.

(** A program that runs to its end or is not there: the two cases an
    [uptime] command is prepared for. *)
Definition runs_or_missing (run : exec) (args : list string) : Prop :=
  match run args with
  | Returned _ | Raised (Os FileNotFoundError) => True
  | Raised _ => False
  end.

Definition get_system_info (pf : system_platform) (run : exec)
  : outcome info_error system_info :=
  match match os_release_file pf with
        | Returned lines =>
            match read_os_release lines ∅ with
            | Returned os_release =>
                Returned (default "Unknown" (os_release !! "NAME"),
                          default "Unknown" (os_release !! "VERSION"))
            | Raised e => Raised e
            end
        | Raised (Os FileNotFoundError) => Returned ("Unknown", "Unknown")
        | Raised e => Raised (ReadError e)
        end with
  | Raised e => Raised e
  | Returned (os, os_version) =>
      match uptime_text run "-p" with
      | Raised e => Raised e
      | Returned uptime =>
          match uptime_text run "-s" with
          | Raised e => Raised e
          | Returned boot_time =>
              Returned {| hostname := node pf;
                          os := os;
                          os_version := os_version;
                          kernel := release pf;
                          architecture := machine pf;
                          uptime := uptime;
                          boot_time := boot_time |}
          end
      end
  end.

(** A line of /etc/os-release as it is written: the key, the value in
    double quotes or bare, and the end of the line. *)
Definition os_release_entry (key value : string) (quoted : bool) : string :=
  key +:+ "=" +:+ (if quoted then String quote (value +:+ String quote EmptyString)
                   else value) +:+ String "010" EmptyString.

(** The characters of a text, for properties of its first and last one. *)
Definition chars (s : string) : list ascii := list_ascii_of_string s.

(** A value that the parser gives back as written: no double quote at
    either end and no white space at the end. *)
Definition plain (value : string) : Prop :=
  head (chars value) ≠ Some quote ∧ last (chars value) ≠ Some quote ∧
  rstrip value = value.

(** A line that does not assign the key. *)
Definition assigns (key line : string) : bool := String.prefix (key +:+ "=") line.

(** Fedora's file, with a line that is no assignment. *)
Definition os_release_sample : list string :=
  [os_release_entry "NAME" "Fedora Linux" true;
   os_release_entry "VERSION" "41 (Workstation Edition)" true;
   "# comment" +:+ String "010" "";
   os_release_entry "ID" "fedora" false].

End System.

(** ** commands/process.py *)

Module Process.
Import Py.

(** The exceptions of [psutil] that the collectors name; [ZombieProcess] is
    a subclass of [NoSuchProcess]. *)
Inductive psutil_error : Type :=
  | NoSuchProcess
  | AccessDenied
  | ZombieProcess.

(** *** The list view *)

(** [proc.info] as [process_iter] fills it for the attributes asked: an
    attribute that could not be read is [None]. *)
Record pinfo : Type := {
  info_pid : Z;
  info_name : option string;
  info_username : option string;
  info_status : option string;
  info_cmdline : option (list string)
}.

(** One process of the iteration: its [info] and what the two sampling
    calls give. *)
Record proc : Type := {
  info : pinfo;
  proc_cpu_percent : outcome psutil_error Q;
  proc_memory_percent : outcome psutil_error Q
}.

Record process_info : Type := {
  pid : Z;
  user : string;
  cpu_percent : Q;
  memory_percent : Q;
  status : option string;
  name : option string;
  command : option string
}.

Record process_list : Type := {
  processes : list process_info;
  total_count : nat
}.

(** The body of the [try] for one process. *)
Definition sample (p : proc) : outcome psutil_error process_info :=
  let pinfo := info p in
  match proc_cpu_percent p with
  | Raised e => Raised e
  | Returned cpu =>
      match proc_memory_percent p with
      | Raised e => Raised e
      | Returned mem =>
          Returned
            {| pid := info_pid pinfo;
               user := match info_username pinfo with
                       | Some u => if truthy u then u else "unknown"
                       | None => "unknown"
                       end;
               cpu_percent := round cpu 1;
               memory_percent := round mem 1;
               status := info_status pinfo;
               name := info_name pinfo;
               command := match info_cmdline pinfo with
                          | Some (w :: ws) => Some (join " " (w :: ws))
                          | _ => info_name pinfo
                          end |}
      end
  end.

(** The [for] loop: [all_processes] as it grows; a process whose sampling
    raises is skipped. *)
Fixpoint collect (procs : list proc) (all_processes : list process_info)
  : list process_info :=
  match procs with
  | [] => all_processes
  | p :: procs' =>
      match sample p with
      | Returned process_info => collect procs' (all_processes ++ [process_info])
      | Raised _ => collect procs' all_processes
      end
  end.

Definition list_processes (process_iter : list proc) : process_list :=
  let all_processes := collect process_iter [] in
  let all_processes := list_sort cpu_percent true all_processes in
  {| processes := take 100 all_processes;
     total_count := length all_processes |}.

(** The entry of a process, when its sampling does not raise. *)
Definition sampled (p : proc) : option process_info :=
  match sample p with
  | Returned e => Some e
  | Raised _ => None
  end.

(** A process survives the enumeration when both samplings return. *)
Definition survives (p : proc) : bool :=
  match proc_cpu_percent p, proc_memory_percent p with
  | Returned _, Returned _ => true
  | _, _ => false
  end.

(** A process of the fake process table of the end-to-end scenario: only
    its pid and its CPU sample vary. *)
Definition fake_proc (pid : Z) (cpu : Q) : proc :=
  {| info := {| info_pid := pid; info_name := Some "worker";
                info_username := Some "root"; info_status := Some "sleeping";
                info_cmdline := Some ["worker"; "--serve"] |};
     proc_cpu_percent := Returned cpu;
     proc_memory_percent := Returned (1 # 2) |}.

(** The order of the enumeration: [psutil.process_iter] yields the
    processes sorted by pid. *)
Definition pid_asc (p q : proc) : Prop := info_pid (info p) < info_pid (info q).

(** The entry that [fake_proc pid cpu] is listed as. *)
Definition default_entry (pid : Z) (cpu : Q) : process_info :=
  {| pid := pid; user := "root"; cpu_percent := round cpu 1;
     memory_percent := round (1 # 2) 1; status := Some "sleeping";
     name := Some "worker"; command := Some "worker --serve" |}.

(** The order the specification asks of the list: CPU percent descending,
    equal CPU percents by ascending pid. *)
Definition cpu_desc_pid_asc (p q : process_info) : Prop :=
  (cpu_percent q < cpu_percent p)%Q ∨
  (cpu_percent p == cpu_percent q)%Q ∧ pid p < pid q.

Definition cpu_desc (p q : process_info) : Prop :=
  (cpu_percent q <= cpu_percent p)%Q.

Definition in_percent_range (x : Q) : Prop := (0 <= x)%Q ∧ (x <= 100)%Q.

(** *** The detail view *)

(** What [get_process_info] can see raised: a [psutil] exception or any
    other one, with its text. *)
Inductive error : Type :=
  | Psutil (e : psutil_error)
  | Exception (msg : string).

Record pmem : Type := { rss : Z; vms : Z }.
Record pcputimes : Type := { cpu_user : Q; cpu_system : Q }.

(** A [psutil.Process] object: its [pid] attribute and what each method
    gives when called. *)
Record Process : Type := {
  proc_pid : Z;
  proc_name : outcome error string;
  proc_exe : outcome error string;
  proc_cmdline : outcome error (list string);
  proc_status : outcome error string;
  proc_username : outcome error string;
  proc_ppid : outcome error Z;
  proc_cpu_percent_blocking : outcome error Q;
  proc_memory_info : outcome error pmem;
  proc_memory_percent_detail : outcome error Q;
  proc_create_time : outcome error Q;
  proc_cpu_times : outcome error pcputimes;
  proc_num_threads : outcome error Z;
  proc_open_files : outcome error (list string)
}.

(** The platform of the detail view: the [psutil.Process] constructor and
    the rendering of a timestamp in local time
    ([datetime.fromtimestamp(t).strftime('%Y-%m-%d %H:%M:%S')]). *)
Record platform : Type := {
  new_Process : Z → outcome error Process;
  strftime : Q → string
}.

(** The queries a run issues to the platform, in order. *)
Inductive query : Type :=
  | QProcess (pid : Z)
  | QName | QExe | QCmdline | QStatus | QUsername | QPpid | QCpuPercent
  | QMemoryInfo | QMemoryPercent | QCreateTime | QCpuTimes | QNumThreads
  | QOpenFiles.

Inductive value : Type :=
  | VStr (s : string)
  | VInt (n : Z)
  | VFloat (x : Q).

(** The state of a run: the [result] dict and the queries issued so far. *)
Record state : Type := {
  result : gmap string value;
  issued : list query
}.

(** State and exceptions, as the [try] block threads them. *)
Definition M (A : Type) : Type := state → outcome error A * state.

Definition ret {A} (a : A) : M A := λ st, (Returned a, st).

Definition bind {A B} (m : M A) (k : A → M B) : M B :=
  λ st, match m st with
        | (Returned a, st') => k a st'
        | (Raised e, st') => (Raised e, st')
        end.

(** A call into the platform: it is recorded, then gives its outcome. *)
Definition call {A} (q : query) (o : outcome error A) : M A :=
  λ st, (o, {| result := result st; issued := issued st ++ [q] |}).

(** [result[k] = v]. *)
Definition set (k : string) (v : value) : M unit :=
  λ st, (Returned tt, {| result := <[k := v]> (result st); issued := issued st |}).

(** [try: m  except (AccessDenied, NoSuchProcess): h]. *)
Definition try_denied_or_gone {A} (m : M A) (h : M A) : M A :=
  λ st, match m st with
        | (Raised (Psutil _), st') => h st'
        | r => r
        end.

#[global] Instance M_ret : MRet M := @ret.
#[global] Instance M_bind : MBind M := λ A B k m, bind m k.

(** The body of the outer [try] of [get_process_info]. *)
Definition collect_detail (os : platform) (pid : Z) : M unit :=
  proc ← call (QProcess pid) (new_Process os pid);
  (* Basic info *)
  name ← call QName (proc_name proc);
  set "name" (VStr name) ;;
  exe ← call QExe (proc_exe proc);
  exe ← (if truthy exe then call QExe (proc_exe proc) else ret "unknown");
  set "exe" (VStr exe) ;;
  cmdline ← call QCmdline (proc_cmdline proc);
  cmdline ← (match cmdline with
              | [] => call QName (proc_name proc)
              | _ => (cmdline ← call QCmdline (proc_cmdline proc);
                      ret (join " " cmdline))
              end);
  set "cmdline" (VStr cmdline) ;;
  status ← call QStatus (proc_status proc);
  set "status" (VStr status) ;;
  user ← call QUsername (proc_username proc);
  set "user" (VStr user) ;;
  set "pid" (VInt (proc_pid proc)) ;;
  ppid ← call QPpid (proc_ppid proc);
  set "ppid" (VInt ppid) ;;
  (* CPU and memory *)
  cpu ← call QCpuPercent (proc_cpu_percent_blocking proc);
  set "cpu_percent" (VFloat (round cpu 1)) ;;
  mem_info ← call QMemoryInfo (proc_memory_info proc);
  set "memory_rss" (VInt (rss mem_info)) ;;
  set "memory_vms" (VInt (vms mem_info)) ;;
  mem ← call QMemoryPercent (proc_memory_percent_detail proc);
  set "memory_percent" (VFloat (round mem 2)) ;;
  (* Timing info *)
  create_time ← call QCreateTime (proc_create_time proc);
  set "created" (VStr (strftime os create_time)) ;;
  cpu_times ← call QCpuTimes (proc_cpu_times proc);
  set "cpu_time_user" (VFloat (round (cpu_user cpu_times) 2)) ;;
  set "cpu_time_system" (VFloat (round (cpu_system cpu_times) 2)) ;;
  (* Thread and file info *)
  threads ← call QNumThreads (proc_num_threads proc);
  set "threads" (VInt threads) ;;
  try_denied_or_gone
    (files ← call QOpenFiles (proc_open_files proc);
     set "open_files" (VInt (Z.of_nat (length files))))
    (set "open_files" (VInt 0)).

(** The final state of a run holds the returned dict and, beside it, the
    queries the run issued. *)
Definition get_process_info (os : platform) (pid : Z) : state :=
  let start := {| result := ∅; issued := [] |} in
  let error (msg : string) (st : state) : state := snd (set "error" (VStr msg) st) in
  (* Validate PID *)
  if pid <? 1 then
    error ("Invalid PID: " +:+ pretty pid +:+ " (must be >= 1)") start
  else
    match collect_detail os pid start with
    | (Returned _, st) => st
    | (Raised (Psutil AccessDenied), st) =>
        error ("Access denied to process " +:+ pretty pid +:+ " (try sudo)") st
    | (Raised (Psutil _), st) =>
        error ("Process " +:+ pretty pid +:+ " not found") st
    | (Raised (Exception msg), st) =>
        error ("Error getting process info: " +:+ msg) st
    end.

(** A platform that knows one process, pid 1, and answers every query
    about it; the file list is denied. *)
Definition init_process : Process :=
  {| proc_pid := 1;
     proc_name := Returned "systemd";
     proc_exe := Returned "/usr/lib/systemd/systemd";
     proc_cmdline := Returned ["/sbin/init"; "splash"];
     proc_status := Returned "sleeping";
     proc_username := Returned "root";
     proc_ppid := Returned 0;
     proc_cpu_percent_blocking := Returned (1 # 4);
     proc_memory_info := Returned {| rss := 12582912; vms := 176160768 |};
     proc_memory_percent_detail := Returned (7 # 100);
     proc_create_time := Returned (1700000000 # 1);
     proc_cpu_times := Returned {| cpu_user := 3 # 2; cpu_system := 5 # 2 |};
     proc_num_threads := Returned 1;
     proc_open_files := Raised (Psutil AccessDenied) |}.

Definition only_init : platform :=
  {| new_Process := λ pid, if pid =? 1 then Returned init_process
                           else Raised (Psutil NoSuchProcess);
     strftime := λ _, "2023-11-14 22:13:20" |}.

(** The keys that [collect_detail] assigns. *)
Definition field_names : list string :=
  ["name"; "exe"; "cmdline"; "status"; "user"; "pid"; "ppid"; "cpu_percent";
   "memory_rss"; "memory_vms"; "memory_percent"; "created"; "cpu_time_user";
   "cpu_time_system"; "threads"; "open_files"].

(** A computation that only appends to the queries issued and only assigns
    keys of [field_names]. *)
Definition tracked {A} (m : M A) : Prop :=
  ∀ st, issued st `prefix_of` issued (m st).2 ∧
        ∀ k, k ∉ field_names → result (m st).2 !! k = result st !! k.

(** The state before the first statement of [get_process_info]. *)
Definition start : state := {| result := ∅; issued := [] |}.

(** The text under the key [error] for an exception that left the [try]
    block: the three [except] clauses of [get_process_info]. *)
Definition error_message (pid : Z) (e : error) : string :=
  match e with
  | Psutil AccessDenied => "Access denied to process " +:+ pretty pid +:+ " (try sudo)"
  | Psutil _ => "Process " +:+ pretty pid +:+ " not found"
  | Exception msg => "Error getting process info: " +:+ msg
  end.

End Process.

(** ** commands/network.py *)

Module Network.
Import Py.
Import Process (psutil_error, NoSuchProcess, AccessDenied, ZombieProcess).

(** *** Interfaces *)

Record snicaddr : Type := {
  family : Z;
  address : string;
  netmask : option string;
  broadcast : option string
}.

Record snicstats : Type := { isup : bool; nic_speed : Z; nic_mtu : Z }.

Record snetio : Type := {
  bytes_sent : Z; bytes_recv : Z; packets_sent : Z; packets_recv : Z;
  errin : Z; errout : Z; dropin : Z; dropout : Z
}.

(** [psutil.AF_LINK], which is [socket.AF_PACKET] on Linux. *)
Definition AF_LINK : Z := 17.

Record ipv4_info : Type := {
  v4_address : string; v4_netmask : string; v4_broadcast : string
}.
Record ipv6_info : Type := { v6_address : string; v6_netmask : string }.

Record iface_info : Type := {
  name : string;
  status : string;
  speed : Z;
  mtu : Z;
  ipv4_addresses : list ipv4_info;
  ipv6_addresses : list ipv6_info;
  mac_address : string
}.

Record interfaces_result : Type := {
  interfaces : list iface_info;
  io_stats : snetio
}.

(** [x or ''] for an optional string. *)
Definition or_empty (x : option string) : string :=
  match x with
  | Some s => s
  | None => ""
  end.

(** One turn of the inner loop over the addresses of an interface. *)
Definition parse_address (entry : iface_info) (addr : snicaddr) : iface_info :=
  if family addr =? AF_LINK then
    {| name := name entry; status := status entry;
       speed := speed entry; mtu := mtu entry;
       ipv4_addresses := ipv4_addresses entry;
       ipv6_addresses := ipv6_addresses entry;
       mac_address := address addr |}
  else if family addr =? 2 then
    {| name := name entry; status := status entry;
       speed := speed entry; mtu := mtu entry;
       ipv4_addresses :=
         ipv4_addresses entry ++
         [{| v4_address := address addr;
             v4_netmask := or_empty (netmask addr);
             v4_broadcast := or_empty (broadcast addr) |}];
       ipv6_addresses := ipv6_addresses entry;
       mac_address := mac_address entry |}
  else if family addr =? 10 then
    {| name := name entry; status := status entry;
       speed := speed entry; mtu := mtu entry;
       ipv4_addresses := ipv4_addresses entry;
       ipv6_addresses :=
         ipv6_addresses entry ++
         [{| v6_address := address addr;
             v6_netmask := or_empty (netmask addr) |}];
       mac_address := mac_address entry |}
  else entry.

(** The body of the outer loop, for one item of the address table. *)
Definition interface_entry (stats : gmap string snicstats)
    (iface_name : string) (iface_addrs : list snicaddr) : iface_info :=
  let entry :=
    {| name := iface_name;
       status := match stats !! iface_name with
                 | Some st => if isup st then "UP" else "DOWN"
                 | None => "DOWN"
                 end;
       speed := match stats !! iface_name with
                | Some st => nic_speed st
                | None => 0
                end;
       mtu := match stats !! iface_name with
              | Some st => nic_mtu st
              | None => 0
              end;
       ipv4_addresses := [];
       ipv6_addresses := [];
       mac_address := "" |} in
  foldl parse_address entry iface_addrs.

(** The address table is a dict, read in insertion order: a list of items.
    The link-stats table is only looked up. *)
Definition get_network_interfaces
    (addrs : list (string * list snicaddr)) (stats : gmap string snicstats)
    (io_counters : snetio) : interfaces_result :=
  {| interfaces := map (λ '(iface_name, iface_addrs),
                          interface_entry stats iface_name iface_addrs) addrs;
     io_stats := io_counters |}.

(** Two tables that disagree: [lo] has addresses and link statistics,
    [wg0] has addresses only, [eth0] has link statistics only. *)
Definition addrs_lo_wg0 : list (string * list snicaddr) :=
  [("lo", [{| family := 2; address := "127.0.0.1";
              netmask := Some "255.0.0.0"; broadcast := None |};
           {| family := 17; address := "00:00:00:00:00:00";
              netmask := None; broadcast := None |}]);
   ("wg0", [{| family := 10; address := "fe80::1";
               netmask := Some "ffff:ffff:ffff:ffff::"; broadcast := None |}])].

Definition stats_lo_eth0 : gmap string snicstats :=
  <["lo" := {| isup := true; nic_speed := 0; nic_mtu := 65536 |}]>
    (<["eth0" := {| isup := true; nic_speed := 1000; nic_mtu := 1500 |}]> ∅).

Definition no_traffic : snetio :=
  {| bytes_sent := 0; bytes_recv := 0; packets_sent := 0; packets_recv := 0;
     errin := 0; errout := 0; dropin := 0; dropout := 0 |}.

(** The records the inner loop appends for an IPv4 and an IPv6 address. *)
Definition to_ipv4 (addr : snicaddr) : ipv4_info :=
  {| v4_address := address addr;
     v4_netmask := or_empty (netmask addr);
     v4_broadcast := or_empty (broadcast addr) |}.

Definition to_ipv6 (addr : snicaddr) : ipv6_info :=
  {| v6_address := address addr; v6_netmask := or_empty (netmask addr) |}.

Definition of_family (n : Z) (addr : snicaddr) : bool := family addr =? n.

(** *** Listening ports *)

Record addr : Type := { ip : string; port : Z }.

(** An item of [psutil.net_connections]: [laddr] is [None] for the empty
    tuple, [conn_pid] is [None] when the owner is not known. *)
Record sconn : Type := {
  conn_status : string;
  conn_type : Z;
  laddr : option addr;
  conn_pid : option Z
}.

Record port_info : Type := {
  proto : string;
  local_address : string;
  pid : option Z;
  program : option string
}.

Record ports_result : Type := {
  listening_ports : list port_info;
  total_count : nat
}.

(** The truth value of [conn.pid]: an int other than zero. *)
Definition pid_truthy (p : option Z) : option Z :=
  match p with
  | Some n => if n =? 0 then None else Some n
  | None => None
  end.

(** The body of the primary loop for one connection: the entry appended,
    if any. [process_name pid] is [psutil.Process(pid).name()]. *)
Definition port_entry (process_name : Z → outcome psutil_error string)
    (conn : sconn) : option port_info :=
  if String.eqb (conn_status conn) "LISTEN"
     || (conn_type conn =? 2) && bool_decide (is_Some (laddr conn))
  then
    let proto := if conn_type conn =? 1 then "TCP" else "UDP" in
    Some {| proto := proto;
            local_address :=
              match laddr conn with
              | Some a => ip a +:+ ":" +:+ pretty (port a)
              | None => "unknown"
              end;
            pid := pid_truthy (conn_pid conn);
            program :=
              match pid_truthy (conn_pid conn) with
              | Some n =>
                  match process_name n with
                  | Returned nm => Some nm
                  | Raised _ => None
                  end
              | None => None
              end |}
  else None.

(** The body of the fallback loop for one line of the text tool; [upper]
    is [str.upper]. *)
Definition ss_entry (upper : string → string) (line : string) : option port_info :=
  if truthy (strip line) then
    match split line with
    | p0 :: _ :: _ :: _ :: p4 :: _ =>
        Some {| proto := upper p0;
                local_address := p4;
                pid := None;
                program := None |}
    | _ => None
    end
  else None.

(** The lines after the header. *)
Definition ss_lines (stdout : string) : list string :=
  drop 1 (split_on "010" stdout).

Definition newline : string := String "010" EmptyString.

(** What escapes [get_listening_ports]: what the socket-table query raises
    other than [AccessDenied], and what running the text tool raises other
    than [CalledProcessError] and [FileNotFoundError]. *)
Inductive ports_error : Type :=
  | QueryError (e : psutil_error)
  | ToolError (e : subprocess_error).

(** [get_listening_ports]; [upper] is [str.upper], [net_connections] what
    [psutil.net_connections(kind='inet')] gives, [process_name pid] what
    [psutil.Process(pid).name()] gives, and [os] runs the text tool. *)
Definition get_listening_ports
    (upper : string → string)
    (net_connections : outcome psutil_error (list sconn))
    (process_name : Z → outcome psutil_error string)
    (os : exec) : outcome ports_error ports_result :=
  let finish (ports : list port_info) :=
    Returned {| listening_ports := ports; total_count := length ports |} in
  match net_connections with
  | Returned connections => finish (omap (port_entry process_name) connections)
  | Raised AccessDenied =>
      (* Fallback: try using ss command *)
      match subprocess_run os ["ss"; "-tulnp"] true with
      | Returned ss_output =>
          finish (omap (ss_entry upper) (ss_lines (stdout ss_output)))
      | Raised (CalledProcessError _) | Raised (Io (Os FileNotFoundError)) =>
          finish []
      | Raised e => Raised (ToolError e)
      end
  | Raised e => Raised (QueryError e)
  end.

(** A socket table: sshd listening on TCP port 22 (pid 811), a resolver
    bound to UDP port 53 whose owner is hidden, an established TCP
    connection and an unbound UDP socket. *)
Definition connections_sample : list sconn :=
  [{| conn_status := "LISTEN"; conn_type := 1;
      laddr := Some {| ip := "0.0.0.0"; port := 22 |}; conn_pid := Some 811 |};
   {| conn_status := "NONE"; conn_type := 2;
      laddr := Some {| ip := "127.0.0.53"; port := 53 |}; conn_pid := None |};
   {| conn_status := "ESTABLISHED"; conn_type := 1;
      laddr := Some {| ip := "10.0.0.5"; port := 22 |}; conn_pid := Some 4242 |};
   {| conn_status := "NONE"; conn_type := 2; laddr := None; conn_pid := Some 0 |}].

Definition names_sample (pid : Z) : outcome psutil_error string :=
  if pid =? 811 then Returned "sshd" else Raised NoSuchProcess.

(** An entry of the fallback path is made of two fields of a line: the
    protocol is a field in upper case, the local address a field, and there
    is no pid and no program. *)
Definition well_formed (upper : string → string) (e : port_info) : Prop :=
  pid e = None ∧ program e = None ∧
  (∃ field, truthy field = true ∧ proto e = upper field) ∧
  truthy (local_address e) = true.

(** A line the fallback cannot use: blank, or fewer than five fields. *)
Definition malformed (line : string) : Prop :=
  (length (split line) < 5)%nat.

(** What the text tool prints on a host with two listeners, with a torn
    line and a blank line in between. *)
Definition ss_sample : string :=
  "Netid State  Recv-Q Send-Q Local Address:Port Peer Address:Port Process" +:+ newline +:+
  "udp   UNCONN 0      0      127.0.0.53%lo:53   0.0.0.0:*" +:+ newline +:+
  "tcp   LISTEN 0" +:+ newline +:+
  "" +:+ newline +:+
  "tcp   LISTEN 0      128    0.0.0.0:22         0.0.0.0:*" +:+ newline.

(** A platform whose only program is [ss], printing [ss_sample]. *)
Definition os_with_ss : exec :=
  λ args, match args with
          | ["ss"; "-tulnp"] => Returned {| stdout := ss_sample; returncode := 0 |}
          | _ => Raised (Os FileNotFoundError)
          end.

(** A platform on which [ss] is installed for the administrator only: the
    calling user may not execute it. *)
Definition os_ss_not_permitted : exec :=
  λ args, match args with
          | "ss" :: _ => Raised (Os PermissionError)
          | _ => Raised (Os FileNotFoundError)
          end.

(** A line of the text tool whose fields are set apart by no-break spaces
    (U+00A0, the bytes 194 160), and one with an ideographic space (U+3000,
    the bytes 227 128 128) among them. *)
Definition nbsp : string := String "194" (String "160" EmptyString).
Definition ideographic_space : string :=
  String "227" (String "128" (String "128" EmptyString)).

Definition ss_line_nbsp : string :=
  "tcp" +:+ nbsp +:+ "LISTEN" +:+ nbsp +:+ "0" +:+ nbsp +:+ "128" +:+ nbsp
  +:+ "0.0.0.0:22" +:+ ideographic_space +:+ "0.0.0.0:*".

End Network.

(** ** commands/service.py *)

Module Service.
Import Py.

Record service_result : Type := {
  text : string;
  error : option string
}.

(** The prologue that [get_service_status] and [get_service_logs] share:
    [if not service_name.endswith('.service'): service_name += '.service']. *)
Definition canonical (service_name : string) : string :=
  if negb (endswith service_name ".service")
  then service_name +:+ ".service"
  else service_name.

(** Both collectors return their dict ([text] is its ['status'] or ['logs']
    item), or let escape what running the program raises other than
    [FileNotFoundError]; beside it, the argument vectors handed to
    [subprocess.run]. [lower] is [str.lower]. *)
Definition get_service_status (lower : string → string) (os : exec)
    (service_name : string)
  : outcome subprocess_error service_result * list (list string) :=
  let service_name := canonical service_name in
  let args := ["systemctl"; "status"; service_name; "--no-pager"; "--full"] in
  match subprocess_run os args false with
  | Returned status_output =>
      (Returned
         {| text := stdout status_output;
            error :=
              if contains "could not be found" (lower (stdout status_output))
                 || contains "not loaded" (lower (stdout status_output))
              then Some ("Service '" +:+ service_name +:+ "' not found")
              else None |}, [args])
  | Raised (Io (Os FileNotFoundError)) =>
      (Returned
         {| text := "";
            error := Some "Error: systemctl not found (systemd required)" |},
       [args])
  | Raised e => (Raised e, [args])
  end.


Record services_result : Type := {
  services : string;
  running_count : nat
}.

Definition list_units_all : list string :=
  ["systemctl"; "list-units"; "--type=service"; "--all"; "--no-pager"].

Definition list_units_running : list string :=
  ["systemctl"; "list-units"; "--type=service"; "--state=running"; "--no-pager"].

(** [list_services]. The text [str(e)] of a [CalledProcessError] is the
    platform's: [str_error args status] stands for it. The two calls share
    one [try], so a failure of the second replaces the listing the first
    gave; what neither [except] clause names escapes. *)
Definition list_services (os : exec) (str_error : list string → Z → string)
  : outcome subprocess_error services_result :=
  let failed (args : list string) (e : subprocess_error) :=
    match e with
    | CalledProcessError status =>
        Returned
          {| services := "Error listing services: " +:+ str_error args status;
             running_count := 0 |}
    | Io (Os FileNotFoundError) =>
        Returned
          {| services := "Error: systemctl not found (systemd required)";
             running_count := 0 |}
    | e => Raised e
    end in
  match subprocess_run os list_units_all true with
  | Returned all_services =>
      match subprocess_run os list_units_running true with
      | Returned running_services =>
          let running_lines :=
            List.filter (contains ".service")
              (split_on "010" (stdout running_services)) in
          Returned {| services := stdout all_services;
                      running_count := length running_lines |}
      | Raised e => failed list_units_running e
      end
  | Raised e => failed list_units_all e
  end.

(** The lines of a text that mention a service unit. *)
Definition unit_lines (text : string) : list string :=
  List.filter (contains ".service") (split_on "010" text).

(** What the status lookup needs of [str.lower]: a stretch of ASCII
    characters is converted where it stands, to its ASCII lower case,
    whatever is written around it. *)
Definition lowers_in_place (str_lower : string → string) : Prop :=
  ∀ before s after,
    is_ascii s →
    ∃ before' after',
      str_lower (before +:+ s +:+ after) = before' +:+ lower s +:+ after'.

(** A platform with [systemctl] only, whose listings are fixed. *)
Definition os_with_systemctl (all running : string) : exec :=
  λ args, if decide (args = list_units_all)
          then Returned {| stdout := all; returncode := 0 |}
          else if decide (args = list_units_running)
               then Returned {| stdout := running; returncode := 0 |}
               else Raised (Os FileNotFoundError).

End Service.

(** * Properties *)

Local Open Scope list_scope.

(** ** Rounding and sorting *)

Module PyFacts.
Import Py.

Lemma Qltb_lt (x y : Q) : Qltb x y = true ↔ (x < y)%Q.
Proof.
  unfold Qltb. rewrite negb_true_iff, <- not_true_iff_false, Qle_bool_iff.
  split; [apply Qnot_le_lt | apply Qlt_not_le].
Qed.

Lemma Qltb_ge (x y : Q) : Qltb x y = false ↔ (y <= x)%Q.
Proof. unfold Qltb. rewrite negb_false_iff. apply Qle_bool_iff. Qed.

(** The rounded value is the floor, or the floor plus one when the
    fraction is at least a half. *)
Lemma round_half_even_cases (x : Q) :
  round_half_even x = Qfloor x ∧ (x - inject_Z (Qfloor x) <= 1 # 2)%Q
  ∨ round_half_even x = Qfloor x + 1 ∧ (1 # 2 <= x - inject_Z (Qfloor x))%Q.
Proof.
  unfold round_half_even.
  destruct (Qcompare_spec (x - inject_Z (Qfloor x)) (1 # 2)) as [E|L|G].
  - destruct (Z.even (Qfloor x)); [left | right]; split; trivial;
      rewrite E; apply Qle_refl.
  - left. split; trivial. now apply Qlt_le_weak.
  - right. split; trivial. now apply Qlt_le_weak.
Qed.

Lemma round_half_even_lower (n : Z) (x : Q) :
  (inject_Z n <= x)%Q → n <= round_half_even x.
Proof.
  intros H. apply Qfloor_resp_le in H. rewrite Qfloor_Z in H.
  destruct (round_half_even_cases x) as [[-> _]|[-> _]]; lia.
Qed.

Lemma round_half_even_upper (n : Z) (x : Q) :
  (x <= inject_Z n)%Q → round_half_even x <= n.
Proof.
  intros H. pose proof (Qfloor_resp_le _ _ H) as Hf. rewrite Qfloor_Z in Hf.
  destruct (round_half_even_cases x) as [[-> _]|[-> Hhalf]]; [lia|].
  assert (Qfloor x ≠ n); [|lia].
  intros E. rewrite E in Hhalf. lra.
Qed.

Lemma round_half_even_close (x : Q) :
  (Qabs (inject_Z (round_half_even x) - x) <= 1 # 2)%Q.
Proof.
  pose proof (Qfloor_le x) as Hlo. pose proof (Qlt_floor x) as Hhi.
  rewrite inject_Z_plus in Hhi. change (inject_Z 1) with 1%Q in Hhi.
  apply Qabs_Qle_condition.
  destruct (round_half_even_cases x) as [[-> H]|[-> H]].
  - split; lra.
  - rewrite inject_Z_plus. change (inject_Z 1) with 1%Q. split; lra.
Qed.

Lemma round_lower (lo : Z) (x : Q) (n : nat) :
  (inject_Z lo <= x)%Q → (inject_Z lo <= round x n)%Q.
Proof.
  intros H. unfold round.
  assert (0 < 10 ^ Z.of_nat n) as HP by (apply Z.pow_pos_nonneg; lia).
  set (P := 10 ^ Z.of_nat n) in *.
  rewrite Qmake_Qdiv, Z2Pos.id by exact HP.
  assert (0 < inject_Z P)%Q as HPQ by (change 0%Q with (inject_Z 0); now rewrite <- Zlt_Qlt).
  apply Qle_shift_div_l; [exact HPQ|].
  rewrite <- inject_Z_mult, <- Zle_Qle.
  apply round_half_even_lower. rewrite inject_Z_mult.
  apply Qmult_le_compat_r; [exact H | now apply Qlt_le_weak].
Qed.

Lemma round_upper (hi : Z) (x : Q) (n : nat) :
  (x <= inject_Z hi)%Q → (round x n <= inject_Z hi)%Q.
Proof.
  intros H. unfold round.
  assert (0 < 10 ^ Z.of_nat n) as HP by (apply Z.pow_pos_nonneg; lia).
  set (P := 10 ^ Z.of_nat n) in *.
  rewrite Qmake_Qdiv, Z2Pos.id by exact HP.
  assert (0 < inject_Z P)%Q as HPQ by (change 0%Q with (inject_Z 0); now rewrite <- Zlt_Qlt).
  apply Qle_shift_div_r; [exact HPQ|].
  rewrite <- inject_Z_mult, <- Zle_Qle.
  apply round_half_even_upper. rewrite inject_Z_mult.
  apply Qmult_le_compat_r; [exact H | now apply Qlt_le_weak].
Qed.

(** [round(x, n)] is within half a unit of the last digit of [x]. *)
Lemma round_close (x : Q) (n : nat) :
  (Qabs (round x n - x) <= 1 # (2 * Z.to_pos (10 ^ Z.of_nat n)))%Q.
Proof.
  unfold round.
  assert (0 < 10 ^ Z.of_nat n) as HP by (apply Z.pow_pos_nonneg; lia).
  set (P := 10 ^ Z.of_nat n) in *.
  assert (0 < inject_Z P)%Q as HPQ by (change 0%Q with (inject_Z 0); now rewrite <- Zlt_Qlt).
  pose proof (round_half_even_close (x * inject_Z P)) as Hc.
  set (r := round_half_even (x * inject_Z P)) in *.
  apply Qabs_Qle_condition in Hc as [Hlo Hhi].
  assert (1 # (2 * Z.to_pos P) == (1 # 2) / inject_Z P)%Q as ->.
  { rewrite (Qmake_Qdiv 1 (2 * Z.to_pos P)), Pos2Z.inj_mul, Z2Pos.id by exact HP.
    rewrite inject_Z_mult. change (inject_Z 1) with 1%Q. change (inject_Z 2) with 2%Q.
    field. intros E. rewrite E in HPQ. now apply Qlt_irrefl in HPQ. }
  rewrite Qmake_Qdiv, Z2Pos.id by exact HP.
  assert (inject_Z r / inject_Z P - x == (inject_Z r - x * inject_Z P) / inject_Z P)%Q as ->.
  { field. intros E. rewrite E in HPQ. now apply Qlt_irrefl in HPQ. }
  apply Qabs_Qle_condition. split.
  - apply Qle_shift_div_l; [exact HPQ|].
    assert (- ((1 # 2) / inject_Z P) * inject_Z P == - (1 # 2))%Q as ->; [|exact Hlo].
    field. intros E. rewrite E in HPQ. now apply Qlt_irrefl in HPQ.
  - apply Qle_shift_div_r; [exact HPQ|].
    assert ((1 # 2) / inject_Z P * inject_Z P == 1 # 2)%Q as ->; [|exact Hhi].
    field. intros E. rewrite E in HPQ. now apply Qlt_irrefl in HPQ.
Qed.

(** *** [list.sort] *)

Section sort.
Context {A : Type} (key : A → Q).

Lemma insert_by_perm (x : A) (l : list A) : insert_by (key_lt key) x l ≡ₚ x :: l.
Proof.
  induction l as [|y l IH]; simpl; [reflexivity|].
  destruct (key_lt key y x); [|reflexivity].
  rewrite IH. apply perm_swap.
Qed.

Lemma stable_sort_perm (l : list A) : stable_sort (key_lt key) l ≡ₚ l.
Proof.
  induction l as [|x l IH]; simpl; [reflexivity|].
  fold (stable_sort (key_lt key) l). now rewrite insert_by_perm, IH.
Qed.

Lemma insert_by_sorted (x : A) (l : list A) :
  StronglySorted (key_le key) l → StronglySorted (key_le key) (insert_by (key_lt key) x l).
Proof.
  induction l as [|y l IH]; simpl; intros Hs.
  - repeat constructor.
  - apply StronglySorted_cons in Hs as [Hy Hl].
    destruct (key_lt key y x) eqn:E.
    + apply StronglySorted_cons. split; [|auto].
      rewrite insert_by_perm. constructor; [|exact Hy].
      apply Qltb_lt in E. now apply Qlt_le_weak.
    + apply Qltb_ge in E.
      apply StronglySorted_cons. split.
      * constructor; [exact E|].
        eapply Forall_impl; [exact Hy|].
        intros z Hz. unfold key_le in *. now apply Qle_trans with (key y).
      * apply StronglySorted_cons. now split.
Qed.

Lemma stable_sort_sorted (l : list A) : StronglySorted (key_le key) (stable_sort (key_lt key) l).
Proof.
  induction l as [|x l IH]; simpl; [constructor|].
  now apply insert_by_sorted.
Qed.

(** Stability: the elements of one key are in the order they had. *)
Lemma insert_by_stable (k : Q) (x : A) (l : list A) :
  List.filter (same_key key k) (insert_by (key_lt key) x l) = List.filter (same_key key k) (x :: l).
Proof.
  induction l as [|y l IH]; [reflexivity|].
  cbn [insert_by]. destruct (key_lt key y x) eqn:E; [|reflexivity].
  cbn [List.filter] in *. rewrite IH.
  destruct (same_key key k x) eqn:Ex; [|reflexivity].
  destruct (same_key key k y) eqn:Ey; [|reflexivity].
  exfalso. apply Qltb_lt in E.
  apply Qeq_bool_iff in Ex, Ey. rewrite Ex, Ey in E.
  now apply Qlt_irrefl in E.
Qed.

Lemma stable_sort_stable (k : Q) (l : list A) :
  List.filter (same_key key k) (stable_sort (key_lt key) l) = List.filter (same_key key k) l.
Proof.
  induction l as [|x l IH]; [reflexivity|].
  cbn [stable_sort foldr]. fold (stable_sort (key_lt key) l).
  rewrite insert_by_stable. cbn [List.filter]. now rewrite IH.
Qed.

Lemma StronglySorted_rev (R : relation A) (l : list A) :
  StronglySorted R l → StronglySorted (flip R) (rev l).
Proof.
  induction 1 as [|x l Hs IH Hx]; simpl; [constructor|].
  apply StronglySorted_app_2; [|exact IH|repeat constructor].
  intros a b Ha Hb. apply list_elem_of_singleton in Hb as ->.
  rewrite Forall_forall in Hx. apply Hx.
  apply list_elem_of_In. apply list_elem_of_In in Ha. now apply in_rev.
Qed.

Lemma list_sort_reverse_sorted (l : list A) :
  StronglySorted (flip (key_le key)) (list_sort key true l).
Proof. apply StronglySorted_rev, stable_sort_sorted. Qed.

Lemma list_sort_reverse_perm (l : list A) : list_sort key true l ≡ₚ l.
Proof.
  unfold list_sort.
  now rewrite <- Permutation_rev, stable_sort_perm, <- Permutation_rev.
Qed.

Lemma list_sort_reverse_stable (k : Q) (l : list A) :
  List.filter (same_key key k) (list_sort key true l) = List.filter (same_key key k) l.
Proof.
  unfold list_sort.
  now rewrite List.filter_rev, stable_sort_stable, List.filter_rev, rev_involutive.
Qed.

End sort.

End PyFacts.

(** ** The process list *)

Module ProcessFacts.
Import Py PyFacts Process.

Lemma collect_omap (procs : list proc) (acc : list process_info) :
  collect procs acc = acc ++ omap sampled procs.
Proof.
  revert acc. induction procs as [|p procs IH]; intros acc; simpl.
  - now rewrite app_nil_r.
  - unfold sampled at 1. destruct (sample p) as [e|err]; rewrite IH.
    + now rewrite <- app_assoc.
    + reflexivity.
Qed.

Lemma sampled_survives (p : proc) : is_Some (sampled p) ↔ survives p = true.
Proof.
  unfold sampled, sample, survives.
  destruct (proc_cpu_percent p), (proc_memory_percent p); simpl;
    split; intros H; try done; try (by eexists); by destruct H.
Qed.

Lemma collect_length (procs : list proc) :
  length (collect procs []) = length (List.filter survives procs).
Proof.
  rewrite collect_omap. simpl.
  induction procs as [|p procs IH]; simpl; [reflexivity|].
  pose proof (sampled_survives p) as Hp.
  destruct (sampled p) as [e|], (survives p); simpl.
  - f_equal. exact IH.
  - destruct Hp as [Hp _]. by discriminate Hp.
  - destruct Hp as [_ Hp]. by destruct Hp.
  - exact IH.
Qed.

Lemma sampled_inv (p : proc) (e : process_info) :
  sampled p = Some e →
  ∃ c m, proc_cpu_percent p = Returned c ∧ proc_memory_percent p = Returned m ∧
         pid e = info_pid (info p) ∧
         cpu_percent e = round c 1 ∧ memory_percent e = round m 1.
Proof.
  unfold sampled, sample.
  destruct (proc_cpu_percent p) as [c|]; [|discriminate].
  destruct (proc_memory_percent p) as [m|]; [|discriminate].
  intros [= <-]. by exists c, m.
Qed.

Lemma collect_pid_sorted (procs : list proc) :
  StronglySorted pid_asc procs →
  StronglySorted (λ e1 e2, pid e1 < pid e2) (collect procs []).
Proof.
  rewrite collect_omap. simpl.
  induction 1 as [|p procs Hs IH Hp]; simpl; [constructor|].
  destruct (sampled p) as [e|] eqn:E; [|exact IH].
  constructor; [exact IH|].
  apply Forall_forall. intros e' He'.
  apply list_elem_of_omap in He' as (p' & Hin & E').
  rewrite Forall_forall in Hp. apply Hp in Hin.
  apply sampled_inv in E as (? & ? & ? & ? & -> & _).
  apply sampled_inv in E' as (? & ? & ? & ? & -> & _).
  exact Hin.
Qed.

Lemma StronglySorted_filter {A} (R : relation A) (f : A → bool) (l : list A) :
  StronglySorted R l → StronglySorted R (List.filter f l).
Proof.
  induction 1 as [|x l Hs IH Hx]; simpl; [constructor|].
  destruct (f x); [|exact IH].
  constructor; [exact IH|].
  rewrite Forall_forall in *. intros y Hy. apply Hx.
  apply list_elem_of_In, filter_In in Hy. apply list_elem_of_In. tauto.
Qed.

Lemma StronglySorted_take {A} (R : relation A) (n : nat) (l : list A) :
  StronglySorted R l → StronglySorted R (take n l).
Proof.
  intros H. rewrite <- (take_drop n l) in H.
  now apply StronglySorted_app_1_l in H.
Qed.

(** A list sorted by descending CPU percent in which the entries of each
    CPU percent are in ascending pid order is in the lexicographic order. *)
Lemma lexicographic (l : list process_info) :
  StronglySorted cpu_desc l →
  (∀ k, StronglySorted (λ e1 e2, pid e1 < pid e2)
          (List.filter (same_key cpu_percent k) l)) →
  StronglySorted cpu_desc_pid_asc l.
Proof.
  induction 1 as [|x l Hs IH Hx]; intros Hk; [constructor|].
  constructor.
  - apply IH. intros k. specialize (Hk k). simpl in Hk.
    destruct (same_key cpu_percent k x); [|exact Hk].
    now apply StronglySorted_cons in Hk.
  - rewrite Forall_forall in *. intros y Hy.
    specialize (Hx y Hy). unfold cpu_desc in Hx.
    destruct (Qlt_le_dec (cpu_percent y) (cpu_percent x)) as [Hlt|Hle];
      [now left|right].
    assert (cpu_percent x == cpu_percent y)%Q as Heq by now apply Qle_antisym.
    split; [exact Heq|].
    specialize (Hk (cpu_percent x)). simpl in Hk.
    unfold same_key at 1 in Hk. rewrite Qeq_bool_refl in Hk.
    apply StronglySorted_cons in Hk as [Hk _].
    rewrite Forall_forall in Hk. apply Hk, list_elem_of_In, filter_In.
    split; [now apply list_elem_of_In|].
    apply Qeq_bool_iff. now symmetry.
Qed.

Lemma list_processes_unfold (process_iter : list proc) :
  list_processes process_iter =
  {| processes := take 100 (list_sort cpu_percent true (omap sampled process_iter));
     total_count := length (list_sort cpu_percent true (omap sampled process_iter)) |}.
Proof. unfold list_processes. now rewrite collect_omap. Qed.

(** C1. [psutil.process_iter] yields the processes in ascending pid
    order. For every such enumeration the returned list is sorted by CPU
    percent descending, entries of equal CPU percent by ascending pid, and
    has at most 100 entries: it is the first 100 of the surviving entries
    put in that order. The CPU values {1: 0.0, 5: 3.2, 9: 3.2} give the pid
    order [5, 9, 1]. *)
Theorem list_processes_sorted_by_cpu_then_pid (process_iter : list proc) :
  StronglySorted pid_asc process_iter →
  let r := list_processes process_iter in
  StronglySorted cpu_desc_pid_asc (processes r) ∧
  (length (processes r) <= 100)%nat ∧
  (∃ sorted,
      sorted ≡ₚ omap sampled process_iter ∧
      StronglySorted cpu_desc_pid_asc sorted ∧
      processes r = take 100 sorted) ∧
  map pid (processes (list_processes
             [fake_proc 1 0; fake_proc 5 (32 # 10); fake_proc 9 (32 # 10)]))
  = [5; 9; 1].
Proof.
  intros Hpid r. subst r. rewrite list_processes_unfold. cbn [processes].
  set (survivors := omap sampled process_iter).
  pose proof (list_sort_reverse_sorted cpu_percent survivors) as Hsorted.
  pose proof (list_sort_reverse_perm cpu_percent survivors) as Hperm.
  pose proof (λ k, list_sort_reverse_stable cpu_percent k survivors) as Hstable.
  assert (StronglySorted cpu_desc_pid_asc (list_sort cpu_percent true survivors))
    as Hlex.
  { apply lexicographic; [exact Hsorted|].
    intros k. rewrite Hstable. apply StronglySorted_filter.
    subst survivors. rewrite <- (app_nil_l (omap _ _)), <- collect_omap.
    now apply collect_pid_sorted. }
  split; [now apply StronglySorted_take|].
  split; [rewrite length_take; lia|].
  split; [by exists (list_sort cpu_percent true survivors)|].
  reflexivity.
Qed.

Lemma list_processes_sorted_by_cpu_then_pid_witness :
  let r := list_processes
             [fake_proc 1 0; fake_proc 5 (32 # 10); fake_proc 9 (32 # 10)] in
  StronglySorted pid_asc
    [fake_proc 1 0; fake_proc 5 (32 # 10); fake_proc 9 (32 # 10)] ∧
  StronglySorted cpu_desc_pid_asc (processes r) ∧
  map pid (processes r) = [5; 9; 1].
Proof.
  assert (StronglySorted pid_asc
            [fake_proc 1 0; fake_proc 5 (32 # 10); fake_proc 9 (32 # 10)]) as H
    by (repeat constructor).
  split; [exact H|].
  destruct (list_processes_sorted_by_cpu_then_pid _ H) as (Hs & _ & _ & Hex).
  split; [exact Hs | exact Hex].
Defined.

(** C4, as the code has it. Each returned entry carries the two samples of
    one enumerated process, rounded to one decimal and not clamped: a
    percent is in [0,100] whenever the sample it comes from is. *)
Theorem list_processes_percent_of_sample
    (process_iter : list proc) (e : process_info) :
  e ∈ processes (list_processes process_iter) →
  ∃ p c m,
    p ∈ process_iter ∧
    proc_cpu_percent p = Returned c ∧ proc_memory_percent p = Returned m ∧
    cpu_percent e = round c 1 ∧ memory_percent e = round m 1 ∧
    (in_percent_range c → in_percent_range (cpu_percent e)) ∧
    (in_percent_range m → in_percent_range (memory_percent e)).
Proof.
  rewrite list_processes_unfold. cbn [processes]. intros He.
  apply elem_of_take in He as (i & He & _). apply list_elem_of_lookup_2 in He.
  rewrite (list_sort_reverse_perm cpu_percent) in He.
  apply list_elem_of_omap in He as (p & Hp & E).
  apply sampled_inv in E as (c & m & Hc & Hm & _ & Ec & Em).
  exists p, c, m. repeat split; trivial; rewrite ?Ec, ?Em.
  - apply (round_lower 0). apply H.
  - apply (round_upper 100). apply H.
  - apply (round_lower 0). apply H.
  - apply (round_upper 100). apply H.
Qed.

Lemma list_processes_percent_of_sample_witness :
  ∃ p c m,
    p ∈ [fake_proc 5 (32 # 10)] ∧
    proc_cpu_percent p = Returned c ∧ proc_memory_percent p = Returned m ∧
    cpu_percent (default_entry 5 (32 # 10)) = round c 1 ∧
    memory_percent (default_entry 5 (32 # 10)) = round m 1 ∧
    (in_percent_range c → in_percent_range (cpu_percent (default_entry 5 (32 # 10)))) ∧
    (in_percent_range m → in_percent_range (memory_percent (default_entry 5 (32 # 10)))).
Proof.
  apply (list_processes_percent_of_sample [fake_proc 5 (32 # 10)]).
  vm_compute. constructor.
Defined.

(** C4 as stated fails: a process that keeps several cores busy is sampled
    above 100 (here 250.0), and the entry carries that value. *)
Lemma list_processes_cpu_percent_above_100 :
  let r := list_processes [fake_proc 7 250] in
  map pid (processes r) = [7] ∧
  ¬ Forall (λ e, in_percent_range (cpu_percent e)
                 ∧ in_percent_range (memory_percent e)) (processes r).
Proof.
  split; [reflexivity|].
  intros H. apply Forall_cons in H as [[[_ H] _] _].
  vm_compute in H. now apply H.
Qed.

(** C6. [total_count] is the number of processes that survived the
    sampling, counted before the cut to 100: it is never below the length
    of the returned list, and above it exactly when more than 100
    survived. *)
Theorem list_processes_total_count (process_iter : list proc) :
  let r := list_processes process_iter in
  total_count r = length (List.filter survives process_iter) ∧
  length (processes r) = Nat.min 100 (total_count r) ∧
  (length (processes r) <= total_count r)%nat ∧
  ((length (processes r) < total_count r)%nat
   ↔ (100 < length (List.filter survives process_iter))%nat).
Proof.
  intros r.
  assert (total_count r = length (List.filter survives process_iter)) as Ht.
  { subst r. unfold list_processes. cbn [total_count].
    rewrite <- collect_length.
    apply Permutation_length, list_sort_reverse_perm. }
  assert (length (processes r) = Nat.min 100 (total_count r)) as Hl.
  { subst r. unfold list_processes. cbn [total_count processes].
    apply length_take. }
  rewrite <- Ht. repeat split; trivial; lia.
Qed.

End ProcessFacts.

(** ** Sizes and the memory snapshot *)

Module SystemFacts.
Import Py PyFacts System.

Lemma float_of_int_exact (n : Z) :
  Z.abs n < 2 ^ 53 → float_of_int n = Some (inject_Z n).
Proof.
  intros H. unfold float_of_int.
  assert (Z.log2 (Z.abs n) - 52 <= 0) as He.
  { destruct (Z.eq_dec (Z.abs n) 0) as [->|Hn]; [simpl; lia|].
    assert (Z.log2 (Z.abs n) < 53); [|lia].
    apply Z.log2_lt_pow2; lia. }
  apply Z.leb_le in He. rewrite He.
  assert ((2 ^ 1024 <=? Z.abs n) = false) as ->.
  { apply Z.leb_gt. eapply Z.lt_trans; [exact H|]. reflexivity. }
  do 2 f_equal. lia.
Qed.

(** Rounding [a], which has [53 + e] bits, to 53 bits. *)
Lemma round_to_53_bits (a e : Z) :
  1 <= e → 2 ^ 52 * 2 ^ e <= a < 2 ^ 53 * 2 ^ e →
  let q := a / 2 ^ e in
  let r := a mod 2 ^ e in
  let h := 2 ^ (e - 1) in
  let m := (if (r <? h) || ((r =? h) && Z.even q) then q else q + 1) * 2 ^ e in
  2 ^ 52 * 2 ^ e <= m <= 2 ^ 53 * 2 ^ e ∧
  (a < 2 ^ 53 * 2 ^ e - h → m < 2 ^ 53 * 2 ^ e).
Proof.
  intros He [Hlo Hhi] q r h m.
  assert (2 ^ e = 2 * h) as HP.
  { subst h. rewrite <- Z.pow_succ_r by lia. f_equal. lia. }
  assert (0 < h) as Hh by (apply Z.pow_pos_nonneg; lia).
  assert (0 < 2 ^ e) as HPpos by lia.
  pose proof (Z.div_mod a (2 ^ e) ltac:(lia)) as Hdm.
  pose proof (Z.mod_pos_bound a (2 ^ e) HPpos) as Hr.
  fold q r in Hdm, Hr.
  assert (2 ^ 52 <= q) as Hq1 by (apply Z.div_le_lower_bound; lia).
  assert (q < 2 ^ 53) as Hq2 by (apply Z.div_lt_upper_bound; lia).
  subst m. destruct (r <? h) eqn:Erh; simpl.
  - split; [nia|]. intros _. nia.
  - apply Z.ltb_ge in Erh.
    destruct ((r =? h) && Z.even q); (split; [nia|]); intros Ha; nia.
Qed.

(** Above 2^53 the conversion rounds, and stays below 2^60 as long as the
    integer is below the midpoint of the last two doubles under 2^60. *)
Lemma float_of_int_rounded (n : Z) :
  2 ^ 53 <= n < 2 ^ 60 - 64 →
  ∃ m, float_of_int n = Some (inject_Z m) ∧ 2 ^ 53 <= m < 2 ^ 60.
Proof.
  intros [Hlo Hhi]. unfold float_of_int.
  rewrite (Z.abs_eq n), (Z.sgn_pos n) by lia.
  assert (0 < n) as Hpos by lia.
  destruct (Z.log2_spec n Hpos) as [L1 L2].
  assert (53 <= Z.log2 n) as Hl1 by (apply Z.log2_le_pow2; lia).
  assert (Z.log2 n < 60) as Hl2 by (apply Z.log2_lt_pow2; lia).
  set (e := Z.log2 n - 52) in *.
  assert (Z.log2 n = 52 + e) as El by lia.
  rewrite El in L1. replace (Z.succ (Z.log2 n)) with (53 + e) in L2 by lia.
  rewrite Z.pow_add_r in L1, L2 by lia.
  destruct (round_to_53_bits n e ltac:(lia) (conj L1 L2)) as [[M1 M2] M3].
  cbv zeta in M1, M2, M3 |- *.
  assert ((e <=? 0) = false) as -> by (apply Z.leb_gt; lia).
  match type of M1 with _ <= ?t => set (m := t) in * end.
  assert (2 ^ e <= 2 ^ 7) as Hpow by (apply Z.pow_le_mono_r; lia).
  assert (m < 2 ^ 60) as Hm.
  { destruct (Z.eq_dec e 7) as [E7|N7].
    - rewrite E7 in M3. change (2 ^ (7 - 1)) with 64 in M3.
      change (2 ^ 53 * 2 ^ 7) with (2 ^ 60) in M3. apply M3. exact Hhi.
    - assert (2 ^ e <= 2 ^ 6) by (apply Z.pow_le_mono_r; lia).
      change (2 ^ 60) with (2 ^ 53 * 2 ^ 7). 
      assert (0 < 2 ^ 53) by reflexivity.
      change (2 ^ 7) with 128. change (2 ^ 6) with 64 in *. nia. }
  exists m. split.
  - assert ((2 ^ 1024 <=? m) = false) as ->; [|now rewrite Z.mul_1_l].
    apply Z.leb_gt. eapply Z.lt_trans; [exact Hm|reflexivity].
  - split; [|exact Hm].
    assert (1 <= 2 ^ e) by (apply (Z.pow_le_mono_r 2 0 e); lia).
    assert (0 < 2 ^ 52) by reflexivity.
    change (2 ^ 53) with (2 ^ 52 * 2). nia.
Qed.

Lemma scaled_comp (x y : Q) (k : nat) : (x == y)%Q → (scaled x k == scaled y k)%Q.
Proof.
  revert x y. induction k as [|k IH]; intros x y E; simpl; [exact E|].
  apply IH. now rewrite E.
Qed.

(** The value after [k] divisions. *)
Lemma scaled_Qmake (m : Z) (d : positive) (k : nat) :
  (scaled (m # d) k == m # (d * Z.to_pos (1024 ^ Z.of_nat k)))%Q.
Proof.
  revert d. induction k as [|k IH]; intros d.
  - simpl. now rewrite Pos.mul_1_r.
  - cbn [scaled].
    rewrite (scaled_comp _ (m # (d * 1024))).
    + rewrite IH. rewrite Nat2Z.inj_succ, Z.pow_succ_r by lia.
      assert (0 < 1024 ^ Z.of_nat k) by (apply Z.pow_pos_nonneg; lia).
      rewrite Z2Pos.inj_mul by lia.
      change (Z.to_pos 1024) with 1024%positive.
      now rewrite Pos.mul_assoc.
    + unfold Qdiv, Qmult, Qinv, Qeq. simpl. lia.
Qed.

Lemma scaled_int_lt (m : Z) (k : nat) :
  0 <= m →
  (Qabs (scaled (inject_Z m) k) < 1024)%Q ↔ m < 1024 ^ Z.of_nat (S k).
Proof.
  intros Hm. unfold inject_Z. rewrite scaled_Qmake, Pos.mul_1_l.
  assert (0 < 1024 ^ Z.of_nat k) as HP by (apply Z.pow_pos_nonneg; lia).
  rewrite Nat2Z.inj_succ, Z.pow_succ_r by lia.
  unfold Qabs, Qlt. cbn [Qnum Qden]. rewrite Z2Pos.id by exact HP.
  rewrite Z.abs_eq by exact Hm. lia.
Qed.

Lemma scaled_int_nonneg (m : Z) (k : nat) :
  0 <= m → (0 <= scaled (inject_Z m) k)%Q.
Proof.
  intros Hm. unfold inject_Z. rewrite scaled_Qmake.
  unfold Qle. cbn [Qnum Qden]. lia.
Qed.

Lemma scaled_int_ge_1 (m : Z) (k : nat) :
  1024 ^ Z.of_nat k <= m → (1 <= scaled (inject_Z m) k)%Q.
Proof.
  intros Hm. unfold inject_Z. rewrite scaled_Qmake, Pos.mul_1_l.
  assert (0 < 1024 ^ Z.of_nat k) as HP by (apply Z.pow_pos_nonneg; lia).
  unfold Qle. cbn [Qnum Qden]. rewrite Z2Pos.id by exact HP. lia.
Qed.

(** The loop on a float stops at the first unit whose scaled value is
    below 1024. *)
Lemma size_loop_stops (us : list string) (x : Q) (k : nat) (u : string) :
  us !! k = Some u →
  (∀ j, (j < k)%nat → ¬ (Qabs (scaled x j) < 1024)%Q) →
  (Qabs (scaled x k) < 1024)%Q →
  size_loop us (PyFloat x) = Returned (format_f1_Q (scaled x k) +:+ u).
Proof.
  revert us x. induction k as [|k IH]; intros us x Hu Hbefore Hk.
  - destruct us as [|u' us]; [discriminate|]. injection Hu as ->.
    cbn [size_loop num_abs scaled] in *.
    apply Qltb_lt in Hk. now rewrite Hk.
  - destruct us as [|u' us]; [discriminate|]. cbn [lookup list_lookup] in Hu.
    cbn [size_loop num_abs truediv_1024].
    assert (Qltb (Qabs x) 1024 = false) as ->.
    { apply not_true_iff_false. rewrite Qltb_lt. apply (Hbefore 0%nat). lia. }
    cbn [scaled]. apply IH; [exact Hu| |exact Hk].
    intros j Hj. apply (Hbefore (S j)). lia.
Qed.

(** The two facts that bracket [l / 10]. *)
Ltac bracket_div10 l :=
  pose proof (Z.mul_div_le l 10 eq_refl);
  pose proof (Z.mul_succ_div_gt l 10 eq_refl).

Lemma unit_index_spec (b : Z) :
  0 < b →
  1024 ^ Z.of_nat (unit_index b) <= b < 1024 ^ Z.of_nat (S (unit_index b)).
Proof.
  intros Hb. unfold unit_index.
  destruct (Z.log2_spec b Hb) as [L1 L2].
  pose proof (Z.log2_nonneg b) as Hl.
  set (l := Z.log2 b) in *.
  assert (0 <= l / 10) as Hq by (apply Z.div_pos; lia).
  bracket_div10 l.
  rewrite Nat2Z.inj_succ, Z2Nat.id by exact Hq.
  change 1024 with (2 ^ 10). rewrite <- !Z.pow_mul_r by lia.
  split.
  - eapply Z.le_trans; [|exact L1]. apply Z.pow_le_mono_r; lia.
  - eapply Z.lt_le_trans; [exact L2|]. apply Z.pow_le_mono_r; lia.
Qed.

(** The first turn of the loop, on a size of 1024 or more. *)
Lemma size_loop_int_step (u : string) (us : list string) (b : Z) (x : Q) :
  float_of_int b = Some x → 1024 <= Z.abs b →
  size_loop (u :: us) (PyInt b) = size_loop us (PyFloat (x / 1024)).
Proof.
  intros Ef Hb. cbn [size_loop num_abs truediv_1024].
  assert (Qltb (inject_Z (Z.abs b)) 1024 = false) as ->.
  { apply Qltb_ge. change 1024%Q with (inject_Z 1024). now rewrite <- Zle_Qle. }
  now rewrite Ef.
Qed.

Lemma unit_index_le_5 (b : Z) : 0 <= b < 1024 ^ 6 → (unit_index b <= 5)%nat.
Proof.
  intros [H0 H1]. unfold unit_index.
  destruct (Z.eq_dec b 0) as [->|Hb]; [vm_compute; lia|].
  assert (Z.log2 b < 60) by (apply Z.log2_lt_pow2; [lia|exact H1]).
  pose proof (Z.log2_nonneg b). bracket_div10 (Z.log2 b).
  assert (0 <= Z.log2 b / 10) by (apply Z.div_pos; lia). lia.
Qed.

(** The double of a size below 2^60 - 64 lies in the same power-of-1024
    bracket as the size. *)
Lemma float_of_int_bracket (b : Z) :
  0 < b < 1024 ^ 6 - 64 →
  ∃ m, float_of_int b = Some (inject_Z m) ∧ (b < 2 ^ 53 → m = b) ∧
       1024 ^ Z.of_nat (unit_index b) <= m < 1024 ^ Z.of_nat (S (unit_index b)).
Proof.
  intros [H0 H1].
  destruct (Z_lt_le_dec b (2 ^ 53)) as [Hs|Hl].
  - exists b. split; [apply float_of_int_exact; lia|].
    split; [trivial|]. apply unit_index_spec, H0.
  - destruct (float_of_int_rounded b (conj Hl H1)) as (m & E & M1 & M2).
    exists m. split; [exact E|]. split; [lia|].
    assert (unit_index b = 5%nat) as ->.
    { unfold unit_index.
      assert (53 <= Z.log2 b) by (apply Z.log2_le_pow2; lia).
      assert (Z.log2 b < 60) by (apply Z.log2_lt_pow2; lia).
      bracket_div10 (Z.log2 b).
      assert (Z.log2 b / 10 = 5) as -> by lia. reflexivity. }
    change (1024 ^ Z.of_nat 5) with (2 ^ 50).
    change (1024 ^ Z.of_nat 6) with (2 ^ 60).
    split; [|exact M2]. eapply Z.le_trans; [|exact M1]. discriminate.
Qed.

(** C5, as the code has it. For a size [0 <= b < 1024^6 - 64] the call
    returns, with no failure: the suffix is the one of index
    [floor (log_1024 b)] (index 0 for [b = 0]; [b], not [b + 1]), and the
    numeral is [x / 1024^k] printed with one fractional digit, where [x] is
    [b] as a double ([b] itself below 2^53); the scaled value is in
    [0, 1024), and at least 1 under a suffix other than the first. *)
Theorem human_readable_size_exact (b : Z) :
  0 <= b < 1024 ^ 6 - 64 →
  ∃ x u,
    float_of_int b = Some x ∧
    (b < 2 ^ 53 → x = inject_Z b) ∧
    units !! unit_index b = Some u ∧
    _human_readable_size b
      = Returned (format_f1_Q (scaled x (unit_index b)) +:+ u) ∧
    (0 <= scaled x (unit_index b))%Q ∧ (scaled x (unit_index b) < 1024)%Q ∧
    (unit_index b ≠ 0%nat → (1 <= scaled x (unit_index b))%Q).
Proof.
  intros [H0 H1].
  destruct (Z_lt_le_dec b 1024) as [Hsmall|Hbig].
  - (* the first turn of the loop returns *)
    assert (unit_index b = 0%nat) as ->.
    { unfold unit_index. destruct (Z.eq_dec b 0) as [->|Hb]; [reflexivity|].
      assert (Z.log2 b < 10) by (apply Z.log2_lt_pow2; lia).
      pose proof (Z.log2_nonneg b).
      assert (Z.log2 b / 10 = 0) as -> by (apply Z.div_small; lia). reflexivity. }
    assert (float_of_int b = Some (inject_Z b)) as Ef
      by (apply float_of_int_exact; rewrite Z.abs_eq; lia).
    exists (inject_Z b), "". split; [exact Ef|]. split; [trivial|].
    split; [reflexivity|].
    unfold _human_readable_size, units. cbn [size_loop num_abs format_f1 scaled].
    rewrite Z.abs_eq by exact H0.
    assert (Qltb (inject_Z b) 1024 = true) as Hlt.
    { apply Qltb_lt. change 1024%Q with (inject_Z 1024). now rewrite <- Zlt_Qlt. }
    rewrite Hlt, Ef. cbn [mbind option_bind].
    split; [reflexivity|]. split; [|split].
    + change 0%Q with (inject_Z 0). now rewrite <- Zle_Qle.
    + now apply Qltb_lt.
    + intros Hk. now destruct Hk.
  - destruct (float_of_int_bracket b ltac:(lia)) as (m & Ef & Hm & M1 & M2).
    pose proof (unit_index_le_5 b ltac:(lia)) as Hk5.
    pose proof (unit_index_spec b ltac:(lia)) as [B1 B2].
    destruct (unit_index b) as [|k] eqn:Ek.
    { change (1024 ^ Z.of_nat 1) with 1024 in B2. lia. }
    assert (0 <= m) as Hm0.
    { eapply Z.le_trans; [|exact M1]. apply Z.pow_nonneg. lia. }
    assert (is_Some (units !! S k)) as [u Hu]
      by (apply lookup_lt_is_Some; simpl; lia).
    exists (inject_Z m), u. split; [exact Ef|].
    split; [intros Hb53; now rewrite (Hm Hb53)|].
    split; [exact Hu|]. split; [|split; [|split]].
    + unfold _human_readable_size, units in *.
      rewrite (size_loop_int_step _ _ b (inject_Z m)) by (trivial; lia).
      apply (size_loop_stops _ (inject_Z m / 1024) k u); [exact Hu| |].
      * intros j Hj. change (scaled (inject_Z m / 1024) j)
          with (scaled (inject_Z m) (S j)).
        rewrite scaled_int_lt by exact Hm0.
        assert (1024 ^ Z.of_nat (S (S j)) <= 1024 ^ Z.of_nat (S k))
          by (apply Z.pow_le_mono_r; lia).
        lia.
      * change (scaled (inject_Z m / 1024) k) with (scaled (inject_Z m) (S k)).
        now apply scaled_int_lt.
    + now apply scaled_int_nonneg.
    + apply Qle_lt_trans with (Qabs (scaled (inject_Z m) (S k)));
        [apply Qle_Qabs | now apply scaled_int_lt].
    + intros _. now apply scaled_int_ge_1.
Qed.

Lemma human_readable_size_exact_witness :
  ∃ x u,
    float_of_int 1536 = Some x ∧
    (1536 < 2 ^ 53 → x = inject_Z 1536) ∧
    units !! unit_index 1536 = Some u ∧
    _human_readable_size 1536
      = Returned (format_f1_Q (scaled x (unit_index 1536)) +:+ u) ∧
    (0 <= scaled x (unit_index 1536))%Q ∧ (scaled x (unit_index 1536) < 1024)%Q ∧
    (unit_index 1536 ≠ 0%nat → (1 <= scaled x (unit_index 1536))%Q).
Proof.
  apply (human_readable_size_exact 1536). vm_compute.
  split; [discriminate | reflexivity].
Defined.

(** C5 as stated fails at 1023 bytes: the logarithm of [b + 1] selects the
    suffix K, the call returns a numeral with no suffix at all. *)
Lemma human_readable_size_1023_has_no_suffix :
  units !! spec_unit_index 1023 = Some "K" ∧
  _human_readable_size 1023 = Returned "1023.0" ∧
  ¬ ∃ numeral, _human_readable_size 1023 = Returned (numeral +:+ "K").
Proof.
  split; [reflexivity|]. split; [reflexivity|].
  intros [numeral H]. vm_compute in H. injection H as H.
  do 6 (destruct numeral as [|? numeral]; vm_compute in H;
        [discriminate H|]; injection H as _ H).
  destruct numeral; vm_compute in H; discriminate H.
Qed.

(** Past the last unit the loop has divided six times, not five: a size of
    1024^6 is printed as one unit of P. *)
Example human_readable_size_past_P :
  _human_readable_size (1024 ^ 6) = Returned "1.0P" ∧
  _human_readable_size (1024 ^ 6 - 64) = Returned "1.0P" ∧
  _human_readable_size (1024 ^ 6 - 65) = Returned "1024.0P" ∧
  _human_readable_size (1024 ^ 2 - 1) = Returned "1024.0K" ∧
  _human_readable_size 0 = Returned "0.0" ∧
  _human_readable_size (2 ^ 1024) = Raised OverflowError.
Proof. vm_compute. repeat split. Qed.

(** C2, as the code has it. The snapshot carries the platform's total,
    used and free byte counts unchanged, and its percent is the platform's
    own percent rounded to two decimals, so within 0.005 of it; nothing is
    recomputed from [ram_used / ram_total]. *)
Theorem get_memory_info_passes_through (ram : svmem) (swap : sswap) :
  let r := get_memory_info ram swap in
  ram_total r = vm_total ram ∧ ram_used r = vm_used ram ∧
  ram_free r = vm_free ram ∧ ram_available r = vm_available ram ∧
  ram_used_percent r = round (vm_percent ram) 2 ∧
  (Qabs (ram_used_percent r - vm_percent ram) <= 1 # 200)%Q ∧
  swap_used_percent r = round (sw_percent swap) 2 ∧
  (Qabs (swap_used_percent r - sw_percent swap) <= 1 # 200)%Q.
Proof.
  cbn. repeat split.
  - apply (round_close (vm_percent ram) 2).
  - apply (round_close (sw_percent swap) 2).
Qed.

(** C2 as stated fails on a machine with a page cache: used and free add up
    to half of the total, and the percent (43.8, from total - available) is
    not the 37.5 that used / total gives. *)
Lemma get_memory_info_invariant_fails :
  let r := get_memory_info ram_16GiB swap_2GiB in
  ram_total r - (ram_used r + ram_free r) = 8 * GiB ∧
  ¬ ∃ tol, spec_memory_invariant tol r.
Proof.
  split; [reflexivity|].
  intros [tol [_ H]]. vm_compute in H. now apply H.
Qed.

End SystemFacts.

(** ** Interfaces and listening ports *)

Module NetworkFacts.
Import Py PyFacts Network.
Import Process (psutil_error, NoSuchProcess, AccessDenied, ZombieProcess).

Lemma parse_address_keeps (entry : iface_info) (a : snicaddr) :
  name (parse_address entry a) = name entry ∧
  status (parse_address entry a) = status entry ∧
  speed (parse_address entry a) = speed entry ∧
  mtu (parse_address entry a) = mtu entry.
Proof.
  unfold parse_address.
  destruct (family a =? AF_LINK); [done|].
  destruct (family a =? 2); [done|].
  destruct (family a =? 10); done.
Qed.

Lemma foldl_parse_address_keeps (iface_addrs : list snicaddr) (entry : iface_info) :
  name (foldl parse_address entry iface_addrs) = name entry ∧
  status (foldl parse_address entry iface_addrs) = status entry ∧
  speed (foldl parse_address entry iface_addrs) = speed entry ∧
  mtu (foldl parse_address entry iface_addrs) = mtu entry.
Proof.
  revert entry. induction iface_addrs as [|a l IH]; intros entry; [done|].
  cbn [foldl]. destruct (IH (parse_address entry a)) as (-> & -> & -> & ->).
  apply parse_address_keeps.
Qed.

Lemma interface_entry_name stats iface_name iface_addrs :
  name (interface_entry stats iface_name iface_addrs) = iface_name.
Proof. unfold interface_entry. now rewrite (proj1 (foldl_parse_address_keeps _ _)). Qed.

Lemma interface_entry_defaults stats iface_name iface_addrs :
  stats !! iface_name = None →
  let e := interface_entry stats iface_name iface_addrs in
  status e = "DOWN" ∧ speed e = 0 ∧ mtu e = 0.
Proof.
  intros Hnone e. subst e. unfold interface_entry.
  destruct (foldl_parse_address_keeps iface_addrs
    {| name := iface_name;
       status := match stats !! iface_name with
                 | Some st => if isup st then "UP" else "DOWN"
                 | None => "DOWN"
                 end;
       speed := match stats !! iface_name with
                | Some st => nic_speed st
                | None => 0
                end;
       mtu := match stats !! iface_name with
              | Some st => nic_mtu st
              | None => 0
              end;
       ipv4_addresses := []; ipv6_addresses := []; mac_address := "" |})
    as (_ & -> & -> & ->).
  cbn. now rewrite Hnone.
Qed.

(** C3, as the code has it. The returned sequence has one entry per item
    of the address table, in its order and under its name. An interface of
    the address table that the link-stats table lacks is listed with status
    DOWN, speed 0 and mtu 0; one without addresses is listed with no IPv4
    or IPv6 address and an empty MAC. The link-stats table is only looked
    up, so a name found there alone is not listed. *)
Theorem get_network_interfaces_follows_addrs
    (addrs : list (string * list snicaddr)) (stats : gmap string snicstats)
    (io_counters : snetio) :
  let r := get_network_interfaces addrs stats io_counters in
  map name (interfaces r) = map fst addrs ∧
  (∀ iface_name iface_addrs,
      (iface_name, iface_addrs) ∈ addrs →
      ∃ e, e ∈ interfaces r ∧ name e = iface_name ∧
           (stats !! iface_name = None →
            status e = "DOWN" ∧ speed e = 0 ∧ mtu e = 0) ∧
           (iface_addrs = [] →
            ipv4_addresses e = [] ∧ ipv6_addresses e = [] ∧ mac_address e = "")) ∧
  (∀ iface_name,
      iface_name ∉ map fst addrs → iface_name ∉ map name (interfaces r)).
Proof.
  intros r.
  assert (map name (interfaces r) = map fst addrs) as Hnames.
  { subst r. cbn [get_network_interfaces interfaces]. rewrite map_map.
    apply map_ext. intros [n a]. apply interface_entry_name. }
  split; [exact Hnames|]. split; [|now rewrite Hnames].
  intros n a Hin. exists (interface_entry stats n a).
  split; [|split; [|split]].
  - subst r. cbn [get_network_interfaces interfaces].
    apply list_elem_of_In, in_map_iff. exists (n, a).
    split; [reflexivity | now apply list_elem_of_In].
  - apply interface_entry_name.
  - apply interface_entry_defaults.
  - now intros ->.
Qed.

Lemma get_network_interfaces_follows_addrs_witness :
  ∃ e, e ∈ interfaces (get_network_interfaces addrs_lo_wg0 stats_lo_eth0 no_traffic) ∧
       name e = "wg0" ∧
       (stats_lo_eth0 !! "wg0" = None →
        status e = "DOWN" ∧ speed e = 0 ∧ mtu e = 0) ∧
       ([{| family := 10; address := "fe80::1";
            netmask := Some "ffff:ffff:ffff:ffff::"; broadcast := None |}] = [] →
        ipv4_addresses e = [] ∧ ipv6_addresses e = [] ∧ mac_address e = "").
Proof.
  apply (proj1 (proj2 (get_network_interfaces_follows_addrs
                         addrs_lo_wg0 stats_lo_eth0 no_traffic))).
  apply list_elem_of_further, list_elem_of_here.
Defined.

(** C3 as stated fails for the link-stats side: [eth0] is in the link-stats
    table only and is not listed, while [wg0], in the address table only,
    is listed with the defaults. *)
Lemma get_network_interfaces_drops_stats_only :
  let r := get_network_interfaces addrs_lo_wg0 stats_lo_eth0 no_traffic in
  is_Some (stats_lo_eth0 !! "eth0") ∧ ("eth0" ∉ map fst addrs_lo_wg0) ∧
  map name (interfaces r) = ["lo"; "wg0"] ∧
  "eth0" ∉ map name (interfaces r).
Proof.
  assert ("eth0" ∉ ["lo"; "wg0"]) as Hnot.
  { intros H. repeat (apply elem_of_cons in H as [H|H]; [discriminate H|]).
    now apply elem_of_nil in H. }
  split; [by eexists|]. split; [exact Hnot|]. split; [reflexivity|exact Hnot].
Qed.

(** *** The fallback parser *)

Lemma rev_app_truthy (s acc : string) :
  truthy acc = true → truthy (String.rev_app s acc) = true.
Proof. revert acc. induction s as [|c s IH]; intros acc H; [exact H|]. now apply IH. Qed.

(** The fields [str.split()] gives are not empty. *)
Lemma split_go_truthy (s : string) (skip : nat) (cur : option string) :
  (∀ w, cur = Some w → truthy w = true) →
  Forall (λ w, truthy w = true) (split_go skip cur s).
Proof.
  assert (∀ cur : option string,
             (∀ w, cur = Some w → truthy w = true) →
             Forall (λ w, truthy w = true) (option_list (String.rev <$> cur)))
    as Hend.
  { intros [w|] Hcur; cbn; [|constructor].
    repeat constructor. unfold String.rev.
    destruct w as [|a w]; [now discriminate (Hcur "" eq_refl)|].
    cbn [String.rev_app]. now apply rev_app_truthy. }
  revert skip cur. induction s as [|c s IH]; intros skip cur Hcur; cbn [split_go].
  - now apply Hend.
  - destruct skip as [|k]; [|now apply IH].
    destruct (space_len (String c s)) as [|k].
    + apply IH. intros w [= <-]. reflexivity.
    + apply Forall_app. split; [now apply Hend|]. apply IH. by intros ? [=].
Qed.

Lemma ss_entry_well_formed (upper : string → string) (line : string)
    (e : port_info) :
  ss_entry upper line = Some e → well_formed upper e.
Proof.
  unfold ss_entry. destruct (truthy (strip line)); [|discriminate].
  pose proof (split_go_truthy line 0 None ltac:(by intros ? [=])) as Hfields.
  fold (split line) in Hfields.
  destruct (split line) as [|p0 [|p1 [|p2 [|p3 [|p4 rest]]]]]; try discriminate.
  intros [= <-]. unfold well_formed. cbn.
  apply Forall_cons in Hfields as [H0 Hfields].
  do 3 (apply Forall_cons in Hfields as [_ Hfields]).
  apply Forall_cons in Hfields as [H4 _].
  repeat split; trivial. by exists p0.
Qed.

Lemma ss_entry_malformed (upper : string → string) (line : string) :
  malformed line → ss_entry upper line = None.
Proof.
  unfold malformed, ss_entry. intros H.
  destruct (truthy (strip line)); [|reflexivity].
  destruct (split line) as [|p0 [|p1 [|p2 [|p3 [|p4 rest]]]]]; try reflexivity.
  cbn in H. lia.
Qed.

Lemma omap_ss_entry_well_formed (upper : string → string) (lines : list string) :
  Forall (well_formed upper) (omap (ss_entry upper) lines).
Proof.
  apply Forall_forall. intros e He.
  apply list_elem_of_omap in He as (line & _ & He).
  now apply ss_entry_well_formed in He.
Qed.

(** C7, as the code has it. When the socket table is denied as a whole,
    that denial does not escape: the collector runs the text tool. When the
    tool runs to its end with status zero, the collector returns what the
    lines after the header parse to, every entry made of a protocol and a
    local address, without pid and program; when the tool ends with another
    status or is not found, it returns the empty sequence. What else
    running the tool raises is not caught. A line of fewer than five fields
    contributes nothing wherever it stands. *)
Theorem get_listening_ports_fallback
    (upper : string → string)
    (process_name : Z → outcome psutil_error string) (os : exec) :
  let result := get_listening_ports upper (Raised AccessDenied) process_name os in
  match subprocess_run os ["ss"; "-tulnp"] true with
  | Returned ss_output =>
      ∃ r, result = Returned r ∧
           listening_ports r = omap (ss_entry upper) (ss_lines (stdout ss_output)) ∧
           Forall (well_formed upper) (listening_ports r)
  | Raised (CalledProcessError _) | Raised (Io (Os FileNotFoundError)) =>
      ∃ r, result = Returned r ∧ listening_ports r = []
  | Raised e => result = Raised (ToolError e)
  end ∧
  (∀ e, result ≠ Raised (QueryError e)) ∧
  (∀ before line after,
      malformed line →
      omap (ss_entry upper) (before ++ line :: after)
      = omap (ss_entry upper) (before ++ after)) ∧
  map local_address
    (omap (ss_entry upper) (ss_lines ss_sample)) = ["127.0.0.53%lo:53"; "0.0.0.0:22"].
Proof.
  intros result. subst result. unfold get_listening_ports.
  split; [|split; [|split; [|reflexivity]]].
  - destruct (subprocess_run os ["ss"; "-tulnp"] true)
      as [ss_output|[rc|[[| |]| |]]]; try reflexivity.
    + eexists. split; [reflexivity|]. cbn [listening_ports].
      split; [reflexivity|]. apply omap_ss_entry_well_formed.
    + by eexists.
    + by eexists.
  - intros e.
    by destruct (subprocess_run os ["ss"; "-tulnp"] true)
      as [ss_output|[rc|[[| |]| |]]].
  - intros before line after Hbad.
    rewrite !omap_app. cbn [omap list_omap]. now rewrite ss_entry_malformed.
Qed.

Lemma get_listening_ports_fallback_witness :
  malformed "tcp   LISTEN 0" ∧
  omap (ss_entry upper)
    (["udp UNCONN 0 0 [::]:5353 [::]:*"] ++ "tcp   LISTEN 0" :: [""])
  = omap (ss_entry upper) (["udp UNCONN 0 0 [::]:5353 [::]:*"] ++ [""]).
Proof.
  assert (malformed "tcp   LISTEN 0") as Hbad by (vm_compute; repeat constructor).
  split; [exact Hbad|].
  destruct (get_listening_ports_fallback upper (λ _, Raised NoSuchProcess) os_with_ss)
    as (_ & _ & Hdrop & _).
  now apply Hdrop.
Defined.

(** C7 as stated fails: where the calling user may not execute the text
    tool, the fallback raises PermissionError, which no [except] clause
    names, and the collector returns no sequence. *)
Lemma get_listening_ports_fallback_raises :
  let result :=
    get_listening_ports upper (Raised AccessDenied) (λ _, Raised NoSuchProcess)
      os_ss_not_permitted in
  result = Raised (ToolError (Io (Os PermissionError))) ∧
  ¬ ∃ r, result = Returned r.
Proof. split; [reflexivity|]. by intros [r Hr]. Qed.

(** The fallback on the sample output: two entries, the torn line and the
    blank lines dropped. *)
Example get_listening_ports_fallback_sample :
  get_listening_ports upper (Raised AccessDenied) (λ _, Raised NoSuchProcess)
    os_with_ss
  = Returned
      {| listening_ports :=
           [{| proto := "UDP"; local_address := "127.0.0.53%lo:53";
               pid := None; program := None |};
            {| proto := "TCP"; local_address := "0.0.0.0:22";
               pid := None; program := None |}];
         total_count := 2 |}.
Proof. reflexivity. Qed.

(** Fields set apart by white space outside ASCII are fields all the same:
    the line is listed. *)
Example ss_entry_unicode_space :
  split ss_line_nbsp = ["tcp"; "LISTEN"; "0"; "128"; "0.0.0.0:22"; "0.0.0.0:*"] ∧
  ss_entry upper ss_line_nbsp
  = Some {| proto := "TCP"; local_address := "0.0.0.0:22";
            pid := None; program := None |}.
Proof. split; reflexivity. Qed.

(** C10. Whenever the collector returns, on the primary path or on the
    fallback, [total_count] is the length of [listening_ports]; it raises
    only what the socket-table query raised, other than a denial, or what
    running the text tool raised, after a denial. *)
Theorem get_listening_ports_total_count
    (upper : string → string)
    (net_connections : outcome psutil_error (list sconn))
    (process_name : Z → outcome psutil_error string) (os : exec) :
  match get_listening_ports upper net_connections process_name os with
  | Returned r => total_count r = length (listening_ports r)
  | Raised (QueryError e) => net_connections = Raised e ∧ e ≠ AccessDenied
  | Raised (ToolError e) =>
      net_connections = Raised AccessDenied ∧
      subprocess_run os ["ss"; "-tulnp"] true = Raised e
  end.
Proof.
  unfold get_listening_ports.
  destruct net_connections as [connections|[| |]]; try done.
  by destruct (subprocess_run os ["ss"; "-tulnp"] true)
    as [ss_output|[rc|[[| |]| |]]].
Qed.

End NetworkFacts.

(** ** The detail view *)

Module DetailFacts.
Import Py Process.

(** C8. For a pid below 1 the call returns the validation error and
    nothing else, and has issued no query to the platform: neither the
    [psutil.Process] constructor nor any method of it. *)
Theorem get_process_info_rejects_pid_below_1 (os : platform) (pid : Z) :
  pid < 1 →
  issued (get_process_info os pid) = [] ∧
  result (get_process_info os pid)
  = {[ "error" := VStr ("Invalid PID: " +:+ pretty pid +:+ " (must be >= 1)") ]}.
Proof.
  intros H. unfold get_process_info.
  apply Z.ltb_lt in H. rewrite H. cbn [set snd issued result].
  split; [reflexivity|]. apply insert_empty.
Qed.

Lemma get_process_info_rejects_pid_below_1_witness :
  issued (get_process_info only_init 0) = [] ∧
  result (get_process_info only_init 0)
  = {[ "error" := VStr ("Invalid PID: " +:+ pretty 0 +:+ " (must be >= 1)") ]}.
Proof. apply (get_process_info_rejects_pid_below_1 only_init 0). lia. Defined.

(** A valid pid does reach the platform: the constructor first, then the
    methods in the order of the source, [exe] and [cmdline] twice. *)
Example get_process_info_queries_pid_1 :
  issued (get_process_info only_init 1)
  = [QProcess 1; QName; QExe; QExe; QCmdline; QCmdline; QStatus; QUsername;
     QPpid; QCpuPercent; QMemoryInfo; QMemoryPercent; QCreateTime; QCpuTimes;
     QNumThreads; QOpenFiles] ∧
  result (get_process_info only_init 1) !! "open_files" = Some (VInt 0) ∧
  result (get_process_info only_init 1) !! "error" = None ∧
  issued (get_process_info only_init 2) = [QProcess 2] ∧
  result (get_process_info only_init 2)
  = {[ "error" := VStr "Process 2 not found" ]} ∧
  result (get_process_info only_init (-3))
  = {[ "error" := VStr "Invalid PID: -3 (must be >= 1)" ]}.
Proof. vm_compute. repeat split. Qed.

End DetailFacts.

(** ** Service names *)

Module ServiceFacts.
Import Py Service.

Lemma append_nil_l (s : string) : "" +:+ s = s.
Proof. reflexivity. Qed.

Lemma append_cons (c : ascii) (s t : string) :
  String c s +:+ t = String c (s +:+ t).
Proof. reflexivity. Qed.

Lemma endswith_refl (s : string) : endswith s s = true.
Proof. destruct s; cbn [endswith]; now rewrite String.eqb_refl. Qed.

Lemma endswith_app (s suffix : string) : endswith (s +:+ suffix) suffix = true.
Proof.
  induction s as [|c s IH].
  - rewrite append_nil_l. apply endswith_refl.
  - rewrite append_cons. cbn [endswith]. rewrite IH. now destruct (String.eqb _ _).
Qed.

(** [endswith] holds of the strings that are a prefix followed by the
    suffix, and of no other. *)
Lemma endswith_spec (s suffix : string) :
  endswith s suffix = true ↔ ∃ prefix, s = prefix +:+ suffix.
Proof.
  split.
  - induction s as [|c s IH]; cbn [endswith].
    + destruct (String.eqb_spec "" suffix) as [<-|]; [|discriminate].
      intros _. by exists "".
    + destruct (String.eqb_spec (String c s) suffix) as [<-|_].
      * intros _. by exists "".
      * intros H. destruct (IH H) as [prefix ->]. by exists (String c prefix).
  - intros [prefix ->]. apply endswith_app.
Qed.






End ServiceFacts.

(** ** More on the process list *)

Module ProcessMore.
Import Py PyFacts Process ProcessFacts.

(** A process whose sampling raises leaves no trace: the list and the count
    are those of the enumeration without it. *)
Theorem list_processes_skips_unsampled (before after : list proc) (p : proc) :
  survives p = false →
  list_processes (before ++ p :: after) = list_processes (before ++ after).
Proof.
  intros Hp. rewrite !list_processes_unfold, !omap_app. cbn [omap list_omap].
  destruct (sampled p) as [e|] eqn:E; [|reflexivity].
  assert (survives p = true) as Ht by (apply sampled_survives; by eexists).
  congruence.
Qed.

Lemma list_processes_skips_unsampled_witness :
  list_processes ([fake_proc 5 (32 # 10)]
                  ++ {| info := info (fake_proc 7 0);
                        proc_cpu_percent := Raised AccessDenied;
                        proc_memory_percent := Returned 0%Q |} :: [fake_proc 9 1])
  = list_processes ([fake_proc 5 (32 # 10)] ++ [fake_proc 9 1]).
Proof. now apply list_processes_skips_unsampled. Defined.





(** The cut keeps the busiest: the survivors that are not listed are
    [total_count - len(processes)] in number and none of them has a higher
    CPU percent than a listed one. With at most 100 survivors none is left
    out. *)
Theorem list_processes_keeps_the_busiest (process_iter : list proc) :
  let r := list_processes process_iter in
  ∃ unlisted,
    processes r ++ unlisted ≡ₚ omap sampled process_iter ∧
    length unlisted = (total_count r - length (processes r))%nat ∧
    (∀ e e', e ∈ processes r → e' ∈ unlisted →
             (cpu_percent e' <= cpu_percent e)%Q) ∧
    ((length (List.filter survives process_iter) <= 100)%nat → unlisted = []).
Proof.
  intros r. subst r. rewrite list_processes_unfold. cbn [processes total_count].
  set (sorted := list_sort cpu_percent true (omap sampled process_iter)).
  exists (drop 100 sorted). split; [|split; [|split]].
  - rewrite take_drop. apply list_sort_reverse_perm.
  - rewrite length_drop, length_take. lia.
  - intros e e' He He'.
    pose proof (list_sort_reverse_sorted cpu_percent (omap sampled process_iter))
      as Hs.
    fold sorted in Hs. rewrite <- (take_drop 100 sorted) in Hs.
    exact (StronglySorted_app_1_elem_of _ _ _ _ _ Hs He He').
  - intros Hle. apply drop_ge.
    subst sorted. rewrite (Permutation_length (list_sort_reverse_perm _ _)).
    rewrite <- (app_nil_l (omap _ _)), <- collect_omap, collect_length. exact Hle.
Qed.

End ProcessMore.

(** ** More on the detail view *)

Module DetailMore.
Import Py Process.

Lemma tracked_ret {A} (a : A) : tracked (ret a).
Proof. intros st. by split. Qed.

Lemma tracked_call {A} (q : query) (o : outcome error A) : tracked (call q o).
Proof. intros st. split; [by apply prefix_app_r|done]. Qed.

Lemma tracked_set (k : string) (v : value) : k ∈ field_names → tracked (set k v).
Proof.
  intros Hk st. split; [done|]. intros k' Hk'. cbn.
  apply lookup_insert_ne. intros ->. by apply Hk'.
Qed.

Lemma tracked_bind {A B} (m : M A) (f : A → M B) :
  tracked m → (∀ a, tracked (f a)) → tracked (m ≫= f).
Proof.
  intros Hm Hf st. destruct (Hm st) as [Hp Hr].
  unfold mbind, M_bind, bind. destruct (m st) as [[a|e] st']; [|by split].
  destruct (Hf a st') as [Hp' Hr']. cbn in *. split.
  - by etrans.
  - intros k Hk. by rewrite Hr', Hr.
Qed.

Lemma tracked_try {A} (m h : M A) :
  tracked m → tracked h → tracked (try_denied_or_gone m h).
Proof.
  intros Hm Hh st. destruct (Hm st) as [Hp Hr].
  unfold try_denied_or_gone. destruct (m st) as [[a|[e|msg]] st']; try by split.
  destruct (Hh st') as [Hp' Hr']. cbn in *. split.
  - by etrans.
  - intros k Hk. by rewrite Hr', Hr.
Qed.

(** Walks a computation written with the combinators of the detail view. *)
Ltac track :=
  repeat first
    [ apply tracked_bind; [|intros ?]
    | apply tracked_call
    | apply tracked_ret
    | apply tracked_set; unfold field_names;
      repeat first [apply list_elem_of_here | apply list_elem_of_further]
    | apply tracked_try
    | match goal with
      | |- tracked (if ?c then _ else _) => destruct c
      | |- tracked (match ?l with [] => _ | _ :: _ => _ end) => destruct l
      end ].

Lemma tracked_collect_detail (os : platform) (pid : Z) :
  tracked (collect_detail os pid).
Proof. unfold collect_detail. track. Qed.

(** What [get_process_info] makes of the run of its [try] block. *)
Lemma get_process_info_run (os : platform) (pid : Z) :
  1 <= pid →
  get_process_info os pid =
  match (collect_detail os pid start).1 with
  | Returned _ => (collect_detail os pid start).2
  | Raised e =>
      {| result := <["error" := VStr (error_message pid e)]>
                     (result (collect_detail os pid start).2);
         issued := issued (collect_detail os pid start).2 |}
  end.
Proof.
  intros Hpid. unfold get_process_info. fold start.
  assert ((pid <? 1) = false) as -> by (apply Z.ltb_ge; lia).
  destruct (collect_detail os pid start) as [[u|[[| |]|msg]] st]; reflexivity.
Qed.

Lemma call_bind_first {A B} (q : query) (o : outcome error A) (f : A → M B)
    (st : state) :
  (∀ a, tracked (f a)) →
  (issued st ++ [q]) `prefix_of` issued ((call q o ≫= f) st).2 ∧
  ∀ e, o = Raised e →
       (call q o ≫= f) st
       = (Raised e, {| result := result st; issued := issued st ++ [q] |}).
Proof.
  intros Hf. unfold mbind, M_bind, bind, call. destruct o as [a|e]; split.
  - apply (Hf a).
  - discriminate.
  - done.
  - by intros ? [= <-].
Qed.

(** With a pid of 1 or more the first query is the constructor, for that
    pid; when the constructor raises, no other query follows and the result
    holds the error text alone. *)
Theorem get_process_info_constructor_first (os : platform) (pid : Z) :
  1 <= pid →
  ∃ rest,
    issued (get_process_info os pid) = QProcess pid :: rest ∧
    ∀ e, new_Process os pid = Raised e →
         rest = [] ∧
         result (get_process_info os pid)
         = {[ "error" := VStr (error_message pid e) ]}.
Proof.
  intros Hpid. rewrite (get_process_info_run os pid Hpid).
  unfold collect_detail.
  match goal with
  | |- context [(call ?q ?o ≫= ?f) start] =>
      destruct (call_bind_first q o f start) as [[rest Hrest] Hraise];
      [intros proc; track|];
      destruct ((call q o ≫= f) start) as [out st] eqn:Erun
  end.
  cbn [fst snd start issued app] in *.
  exists rest. split.
  - destruct out; exact Hrest.
  - intros e He. specialize (Hraise e He). injection Hraise as -> ->.
    cbn [issued result] in *. split; [|apply insert_empty].
    apply (f_equal length) in Hrest. cbn in Hrest.
    destruct rest; [reflexivity|discriminate Hrest].
Qed.

Lemma get_process_info_constructor_first_witness :
  ∃ rest,
    issued (get_process_info only_init 2) = QProcess 2 :: rest ∧
    ∀ e, new_Process only_init 2 = Raised e →
         rest = [] ∧
         result (get_process_info only_init 2)
         = {[ "error" := VStr (error_message 2 e) ]}.
Proof. apply (get_process_info_constructor_first only_init 2). lia. Defined.

(** The returned dict has no key but [error] and the sixteen fields,
    whatever the pid and whatever the platform answers. *)
Theorem get_process_info_keys (os : platform) (pid : Z) (k : string) :
  is_Some (result (get_process_info os pid) !! k) →
  k = "error" ∨ k ∈ field_names.
Proof.
  intros Hk. destruct (decide (k = "error")) as [|Hne]; [by left|right].
  destruct (decide (k ∈ field_names)) as [|Hout]; [done|exfalso].
  destruct (Z_lt_le_dec pid 1) as [Hlow|Hpid].
  - unfold get_process_info in Hk. apply Z.ltb_lt in Hlow. rewrite Hlow in Hk.
    cbn in Hk. rewrite lookup_insert_ne, lookup_empty in Hk by done.
    by destruct Hk.
  - rewrite (get_process_info_run os pid Hpid) in Hk.
    destruct (tracked_collect_detail os pid start) as [_ Hkeep].
    specialize (Hkeep k Hout). cbn in Hkeep. rewrite lookup_empty in Hkeep.
    destruct (collect_detail os pid start) as [[u|e] st]; cbn in *.
    + rewrite Hkeep in Hk. by destruct Hk.
    + rewrite lookup_insert_ne, Hkeep in Hk by done. by destruct Hk.
Qed.

Lemma get_process_info_keys_witness : "open_files" = "error" ∨ "open_files" ∈ field_names.
Proof.
  apply (get_process_info_keys only_init 1 "open_files").
  vm_compute. by eexists.
Defined.

(** The key [error] is there exactly when an exception left the [try]
    block, and its text tells which: access denied, not found (a vanished
    or zombie process too), or any other error with its own text. The
    fields assigned before the exception stay in the result. *)
Theorem get_process_info_error_key (os : platform) (pid : Z) :
  1 <= pid →
  result (get_process_info os pid) !! "error"
  = match (collect_detail os pid start).1 with
    | Returned _ => None
    | Raised e => Some (VStr (error_message pid e))
    end ∧
  ∀ k, k ≠ "error" →
       result (get_process_info os pid) !! k
       = result (collect_detail os pid start).2 !! k.
Proof.
  intros Hpid. rewrite (get_process_info_run os pid Hpid).
  destruct (tracked_collect_detail os pid start) as [_ Hkeep].
  assert ("error" ∉ field_names) as Hout.
  { intros H. unfold field_names in H.
    repeat (apply elem_of_cons in H as [H|H]; [discriminate H|]).
    by apply elem_of_nil in H. }
  specialize (Hkeep "error" Hout). cbn in Hkeep. rewrite lookup_empty in Hkeep.
  destruct (collect_detail os pid start) as [[u|e] st]; cbn in *.
  - by split.
  - split; [apply lookup_insert_eq|]. intros k Hk. by apply lookup_insert_ne.
Qed.

Lemma get_process_info_error_key_witness :
  result (get_process_info only_init 1) !! "error"
  = match (collect_detail only_init 1 start).1 with
    | Returned _ => None
    | Raised e => Some (VStr (error_message 1 e))
    end ∧
  ∀ k, k ≠ "error" →
       result (get_process_info only_init 1) !! k
       = result (collect_detail only_init 1 start).2 !! k.
Proof. apply (get_process_info_error_key only_init 1). lia. Defined.

Lemma bind_call_returned {A B} (q : query) (a : A) (f : A → M B)
    (r : gmap string value) (l : list query) :
  (call q (Returned a) ≫= f) {| result := r; issued := l |}
  = f a {| result := r; issued := l ++ [q] |}.
Proof. reflexivity. Qed.

Lemma bind_set {B} (k : string) (v : value) (f : unit → M B)
    (r : gmap string value) (l : list query) :
  (set k v ≫= f) {| result := r; issued := l |}
  = f tt {| result := <[k := v]> r; issued := l |}.
Proof. reflexivity. Qed.

Lemma bind_ret {A B} (a : A) (f : A → M B) (st : state) :
  (ret a ≫= f) st = f a st.
Proof. reflexivity. Qed.

Lemma bind_bind_call_returned {A B C} (q : query) (a : A) (k : A → M B)
    (f : B → M C) (r : gmap string value) (l : list query) :
  ((call q (Returned a) ≫= k) ≫= f) {| result := r; issued := l |}
  = (k a ≫= f) {| result := r; issued := l ++ [q] |}.
Proof. reflexivity. Qed.

(** One statement of the [try] block, on a state written out. *)
Ltac run_step :=
  first [ rewrite bind_call_returned | rewrite bind_set | rewrite bind_ret
        | rewrite bind_bind_call_returned ];
  cbv beta iota.

(** Reads a literal key in a dict built by assignments to literal keys. *)
Ltac read_key :=
  repeat first
    [ rewrite lookup_insert_eq
    | rewrite lookup_insert_ne by (intros ?; discriminate)
    | rewrite lookup_empty ].

(** When the constructor and every method but [open_files] answer, and
    [open_files] answers or raises a [psutil] exception, the result has all
    sixteen fields and no error: a denied file list counts as 0 files, an
    empty executable path reads unknown, an empty command line is replaced
    by the name. *)
Theorem get_process_info_complete
    (os : platform) (pid : Z) (proc : Process)
    (name exe status user : string) (cmdline : list string)
    (ppid threads : Z) (cpu mem create_time : Q)
    (mem_info : pmem) (cpu_times : pcputimes) :
  1 <= pid →
  new_Process os pid = Returned proc →
  proc_name proc = Returned name →
  proc_exe proc = Returned exe →
  proc_cmdline proc = Returned cmdline →
  proc_status proc = Returned status →
  proc_username proc = Returned user →
  proc_ppid proc = Returned ppid →
  proc_cpu_percent_blocking proc = Returned cpu →
  proc_memory_info proc = Returned mem_info →
  proc_memory_percent_detail proc = Returned mem →
  proc_create_time proc = Returned create_time →
  proc_cpu_times proc = Returned cpu_times →
  proc_num_threads proc = Returned threads →
  (∀ msg, proc_open_files proc ≠ Raised (Exception msg)) →
  let r := result (get_process_info os pid) in
  r !! "error" = None ∧
  (∀ k, k ∈ field_names → is_Some (r !! k)) ∧
  r !! "open_files"
  = Some (VInt match proc_open_files proc with
               | Returned files => Z.of_nat (length files)
               | Raised _ => 0
               end) ∧
  r !! "exe" = Some (VStr (if truthy exe then exe else "unknown")) ∧
  r !! "cmdline"
  = Some (VStr match cmdline with [] => name | _ => join " " cmdline end) ∧
  r !! "memory_percent" = Some (VFloat (round mem 2)).
Proof.
  intros Hpid Hnew Hname Hexe Hcmd Hstatus Huser Hppid Hcpu Hinfo Hmem Hct
    Htimes Hthreads Hfiles r.
  subst r. unfold get_process_info, collect_detail.
  assert ((pid <? 1) = false) as -> by (apply Z.ltb_ge; lia).
  cbv zeta. rewrite Hnew, bind_call_returned. cbv beta.
  rewrite Hname, Hexe, Hcmd, Hstatus, Huser, Hppid, Hcpu, Hinfo, Hmem, Hct,
    Htimes, Hthreads.
  do 3 run_step.
  destruct (truthy exe); do 3 run_step;
    (destruct cmdline as [|w ws]; cbv beta iota; repeat run_step;
     unfold try_denied_or_gone, mbind, M_bind, bind, call, set;
     (destruct (proc_open_files proc) as [files|[e|msg]];
      [ | | now destruct (Hfiles msg)]);
     cbn [fst snd result issued];
     (split; [by read_key|]);
     (split; [intros k Hk; unfold field_names in Hk;
              repeat (apply elem_of_cons in Hk as [->|Hk];
                      [read_key; by eexists|]);
              by apply elem_of_nil in Hk|]);
     repeat split; by read_key).
Qed.

Lemma get_process_info_complete_witness :
  let r := result (get_process_info only_init 1) in
  r !! "error" = None ∧
  (∀ k, k ∈ field_names → is_Some (r !! k)) ∧
  r !! "open_files"
  = Some (VInt match proc_open_files init_process with
               | Returned files => Z.of_nat (length files)
               | Raised _ => 0
               end) ∧
  r !! "exe" = Some (VStr (if truthy "/usr/lib/systemd/systemd"
                           then "/usr/lib/systemd/systemd" else "unknown")) ∧
  r !! "cmdline"
  = Some (VStr match ["/sbin/init"; "splash"] with
               | [] => "systemd"
               | _ => join " " ["/sbin/init"; "splash"]
               end) ∧
  r !! "memory_percent" = Some (VFloat (round (7 # 100) 2)).
Proof.
  apply (get_process_info_complete only_init 1 init_process "systemd"
           "/usr/lib/systemd/systemd" "sleeping" "root" ["/sbin/init"; "splash"]
           0 1 (1 # 4) (7 # 100) (1700000000 # 1)
           {| rss := 12582912; vms := 176160768 |}
           {| cpu_user := 3 # 2; cpu_system := 5 # 2 |});
    try reflexivity; try lia; try discriminate.
Defined.

End DetailMore.

(** ** More on the listening ports and the interfaces *)

Module NetworkMore.
Import Py PyFacts Network NetworkFacts.
Import Process (psutil_error, NoSuchProcess, AccessDenied, ZombieProcess).

(** What an entry says of the socket itself. *)
Lemma port_entry_socket (f g : Z → outcome psutil_error string) (conn : sconn) :
  match port_entry f conn, port_entry g conn with
  | Some e1, Some e2 =>
      proto e1 = proto e2 ∧ local_address e1 = local_address e2 ∧ pid e1 = pid e2
  | None, None => True
  | _, _ => False
  end.
Proof. unfold port_entry. by destruct (_ || _). Qed.

Lemma omap_port_entry_socket (f g : Z → outcome psutil_error string)
    (connections : list sconn) :
  map (λ e, (proto e, local_address e, pid e)) (omap (port_entry f) connections)
  = map (λ e, (proto e, local_address e, pid e)) (omap (port_entry g) connections).
Proof.
  induction connections as [|conn l IH]; [reflexivity|]. cbn [omap list_omap].
  pose proof (port_entry_socket f g conn) as H.
  destruct (port_entry f conn) as [e1|], (port_entry g conn) as [e2|];
    try done; cbn [map].
  destruct H as (-> & -> & ->). f_equal. exact IH.
Qed.

(** Whether and how the owners' names resolve changes neither which sockets
    are listed nor their protocol, address and pid, nor the count, nor what
    is raised: a name that cannot be resolved costs the entry its program
    only. *)
Theorem get_listening_ports_whatever_the_names
    (upper : string → string)
    (net_connections : outcome psutil_error (list sconn))
    (f g : Z → outcome psutil_error string) (os : exec) :
  match get_listening_ports upper net_connections f os,
        get_listening_ports upper net_connections g os with
  | Returned r1, Returned r2 =>
      map (λ e, (proto e, local_address e, pid e)) (listening_ports r1)
      = map (λ e, (proto e, local_address e, pid e)) (listening_ports r2) ∧
      total_count r1 = total_count r2
  | Raised e1, Raised e2 => e1 = e2
  | _, _ => False
  end.
Proof.
  unfold get_listening_ports.
  destruct net_connections as [connections|[| |]]; try done.
  - cbn [listening_ports total_count].
    pose proof (omap_port_entry_socket f g connections) as H.
    split; [exact H|].
    apply (f_equal length) in H. by rewrite !length_map in H.
  - by destruct (subprocess_run os _ true) as [ss_output|[rc|[[| |]| |]]].
Qed.




(** A connection that is neither in the LISTEN state nor a UDP socket with
    a local address is passed over: the outcome is that of the table
    without it. One that is adds one entry to the count. *)
Theorem get_listening_ports_primary_filter
    (upper : string → string)
    (before after : list sconn) (conn : sconn)
    (f : Z → outcome psutil_error string) (os : exec) :
  (conn_status conn ≠ "LISTEN" →
   conn_type conn ≠ 2 ∨ laddr conn = None →
   get_listening_ports upper (Returned (before ++ conn :: after)) f os
   = get_listening_ports upper (Returned (before ++ after)) f os) ∧
  (conn_status conn = "LISTEN" ∨ conn_type conn = 2 ∧ is_Some (laddr conn) →
   ∃ r r', get_listening_ports upper (Returned (before ++ conn :: after)) f os
           = Returned r ∧
           get_listening_ports upper (Returned (before ++ after)) f os = Returned r' ∧
           total_count r = S (total_count r')).
Proof.
  unfold get_listening_ports. split.
  - intros Hst Hudp. rewrite !omap_app. cbn [omap list_omap].
    assert (port_entry f conn = None) as ->; [|reflexivity].
    unfold port_entry.
    assert (String.eqb (conn_status conn) "LISTEN" = false) as ->
      by (now apply String.eqb_neq).
    destruct Hudp as [Ht|Hl].
    + assert ((conn_type conn =? 2) = false) as -> by (now apply Z.eqb_neq).
      reflexivity.
    + rewrite Hl. by destruct (conn_type conn =? 2).
  - intros Hl. eexists _, _. split; [reflexivity|]. split; [reflexivity|].
    cbn [total_count]. rewrite !omap_app, !length_app. cbn [omap list_omap].
    assert (is_Some (port_entry f conn)) as [e ->]; [|cbn; lia].
    unfold port_entry.
    assert (String.eqb (conn_status conn) "LISTEN"
            || (conn_type conn =? 2) && bool_decide (is_Some (laddr conn)) = true)
      as ->; [|by eexists].
    destruct Hl as [->|[-> Ha]]; [reflexivity|].
    rewrite bool_decide_eq_true_2 by exact Ha. cbn. apply orb_true_r.
Qed.

Lemma get_listening_ports_primary_filter_witness :
  get_listening_ports upper
    (Returned ([] ++ {| conn_status := "ESTABLISHED"; conn_type := 1;
                        laddr := Some {| ip := "10.0.0.5"; port := 22 |};
                        conn_pid := Some 4242 |} :: connections_sample))
    names_sample (λ _, Raised (Os FileNotFoundError))
  = get_listening_ports upper (Returned ([] ++ connections_sample)) names_sample
      (λ _, Raised (Os FileNotFoundError)).
Proof.
  apply (proj1 (get_listening_ports_primary_filter upper [] connections_sample _
                  names_sample (λ _, Raised (Os FileNotFoundError)))).
  - discriminate.
  - by left.
Defined.

(** *** The addresses of an interface *)

Lemma default_last_cons {A} (d x : A) (l : list A) :
  default d (last (x :: l)) = default x (last l).
Proof.
  revert d x. induction l as [|y l IH]; intros d x; [reflexivity|].
  change (last (x :: y :: l)) with (last (y :: l)).
  by rewrite (IH d y), (IH x y).
Qed.

Lemma foldl_parse_address_lists (iface_addrs : list snicaddr) (entry : iface_info) :
  ipv4_addresses (foldl parse_address entry iface_addrs)
  = ipv4_addresses entry ++ map to_ipv4 (List.filter (of_family 2) iface_addrs) ∧
  ipv6_addresses (foldl parse_address entry iface_addrs)
  = ipv6_addresses entry ++ map to_ipv6 (List.filter (of_family 10) iface_addrs) ∧
  mac_address (foldl parse_address entry iface_addrs)
  = default (mac_address entry)
      (last (map address (List.filter (of_family AF_LINK) iface_addrs))).
Proof.
  revert entry. induction iface_addrs as [|a l IH]; intros entry.
  - cbn. by rewrite !app_nil_r.
  - cbn [foldl List.filter]. destruct (IH (parse_address entry a)) as (-> & -> & ->).
    unfold parse_address, of_family.
    destruct (family a =? AF_LINK) eqn:E1.
    { apply Z.eqb_eq in E1. rewrite E1. cbn. by rewrite default_last_cons. }
    destruct (family a =? 2) eqn:E2.
    { apply Z.eqb_eq in E2. rewrite E2. cbn. by rewrite <- app_assoc. }
    destruct (family a =? 10) eqn:E3.
    { cbn. by rewrite <- app_assoc. }
    done.
Qed.

(** The entry at each position of the output is that of the item at the
    same position of the address table: it lists the item's IPv4 addresses
    and its IPv6 addresses in their order, has the last link-layer address
    as MAC (none: empty), ignores every other family, and takes status,
    speed and mtu from the link statistics of that name when there are. *)
Theorem get_network_interfaces_entry
    (addrs : list (string * list snicaddr)) (stats : gmap string snicstats)
    (io_counters : snetio) (i : nat) (iface_name : string)
    (iface_addrs : list snicaddr) :
  addrs !! i = Some (iface_name, iface_addrs) →
  ∃ e,
    interfaces (get_network_interfaces addrs stats io_counters) !! i = Some e ∧
    name e = iface_name ∧
    ipv4_addresses e = map to_ipv4 (List.filter (of_family 2) iface_addrs) ∧
    ipv6_addresses e = map to_ipv6 (List.filter (of_family 10) iface_addrs) ∧
    mac_address e
    = default "" (last (map address (List.filter (of_family AF_LINK) iface_addrs))) ∧
    ∀ st, stats !! iface_name = Some st →
          status e = (if isup st then "UP" else "DOWN") ∧
          speed e = nic_speed st ∧ mtu e = nic_mtu st.
Proof.
  intros Hi. exists (interface_entry stats iface_name iface_addrs).
  split.
  { cbn [get_network_interfaces interfaces].
    change (map ?f addrs) with (f <$> addrs). by rewrite list_lookup_fmap, Hi. }
  split; [apply interface_entry_name|].
  unfold interface_entry.
  match goal with
  | |- context [foldl parse_address ?e0 iface_addrs] =>
      destruct (foldl_parse_address_lists iface_addrs e0) as (-> & -> & ->);
      destruct (foldl_parse_address_keeps iface_addrs e0) as (_ & -> & -> & ->)
  end.
  cbn. repeat split; trivial; by rewrite H.
Qed.

Lemma get_network_interfaces_entry_witness :
  ∃ e,
    interfaces (get_network_interfaces addrs_lo_wg0 stats_lo_eth0 no_traffic)
      !! 0%nat = Some e ∧
    name e = "lo" ∧
    ipv4_addresses e
    = map to_ipv4 (List.filter (of_family 2) (default [] (snd <$> addrs_lo_wg0 !! 0%nat))) ∧
    ipv6_addresses e
    = map to_ipv6 (List.filter (of_family 10) (default [] (snd <$> addrs_lo_wg0 !! 0%nat))) ∧
    mac_address e
    = default "" (last (map address
                          (List.filter (of_family AF_LINK)
                             (default [] (snd <$> addrs_lo_wg0 !! 0%nat))))) ∧
    ∀ st, stats_lo_eth0 !! "lo" = Some st →
          status e = (if isup st then "UP" else "DOWN") ∧
          speed e = nic_speed st ∧ mtu e = nic_mtu st.
Proof.
  apply (get_network_interfaces_entry addrs_lo_wg0 stats_lo_eth0 no_traffic 0 "lo").
  reflexivity.
Defined.

(** *** The header of the text tool *)

Lemma contains_char_cons (c a : ascii) (s : string) :
  contains (String c EmptyString) (String a s) = false →
  Ascii.eqb a c = false ∧ contains (String c EmptyString) s = false.
Proof.
  cbn [contains String.prefix].
  destruct (ascii_dec c a) as [->|Hne].
  - destruct s; discriminate.
  - intros H. split; [|exact H]. apply Ascii.eqb_neq. congruence.
Qed.

Lemma split_on_first (sep : ascii) (head rest : string) :
  contains (String sep EmptyString) head = false →
  split_on sep (head +:+ String sep rest) = head :: split_on sep rest.
Proof.
  induction head as [|a head IH]; intros H.
  - change (EmptyString +:+ String sep rest) with (String sep rest).
    cbn [split_on]. by rewrite Ascii.eqb_refl.
  - apply contains_char_cons in H as [Ha H].
    change (String a head +:+ String sep rest)
      with (String a (head +:+ String sep rest)).
    cbn [split_on]. by rewrite Ha, (IH H).
Qed.

(** The first line of the text tool's output is passed over whatever it
    says: the entries are those of the lines after it. An exit status other
    than zero discards the output altogether. *)
Theorem get_listening_ports_fallback_header
    (upper : string → string)
    (f : Z → outcome psutil_error string) (os : exec)
    (header body : string) (status : Z) :
  contains newline header = false →
  os ["ss"; "-tulnp"]
  = Returned {| stdout := header +:+ newline +:+ body; returncode := status |} →
  get_listening_ports upper (Raised AccessDenied) f os
  = Returned
      (if status =? 0
       then {| listening_ports := omap (ss_entry upper) (split_on "010" body);
               total_count := length (omap (ss_entry upper) (split_on "010" body)) |}
       else {| listening_ports := []; total_count := 0 |}).
Proof.
  intros Hh Hos. unfold get_listening_ports, subprocess_run. rewrite Hos.
  cbn [returncode stdout andb]. destruct (status =? 0); cbn [negb]; [|reflexivity].
  unfold ss_lines, newline. cbn [stdout].
  change (header +:+ String "010" EmptyString +:+ body)
    with (header +:+ String "010" body).
  by rewrite (split_on_first _ _ _ Hh).
Qed.

Lemma get_listening_ports_fallback_header_witness :
  get_listening_ports upper (Raised AccessDenied) names_sample
    (λ _, Returned {| stdout := "Netid State" +:+ newline
                                +:+ "tcp LISTEN 0 128 [::]:80 [::]:*";
                      returncode := 0 |})
  = Returned
      (if 0 =? 0
       then {| listening_ports :=
                 omap (ss_entry upper)
                   (split_on "010" "tcp LISTEN 0 128 [::]:80 [::]:*");
               total_count :=
                 length (omap (ss_entry upper)
                           (split_on "010" "tcp LISTEN 0 128 [::]:80 [::]:*")) |}
       else {| listening_ports := []; total_count := 0 |}).
Proof.
  by apply (get_listening_ports_fallback_header upper names_sample _ "Netid State").
Defined.

End NetworkMore.

(** ** More on the services *)

Module ServiceMore.
Import Py Service ServiceFacts.

Lemma split_on_nonempty (sep : ascii) (s : string) : split_on sep s ≠ [].
Proof.
  destruct s as [|c s]; cbn [split_on]; [discriminate|].
  destruct (Ascii.eqb c sep); [discriminate|].
  destruct (split_on sep s); discriminate.
Qed.

(** Splitting a text at a separator splits what stands before it and what
    stands after it. *)
Lemma split_on_app (sep : ascii) (a b : string) :
  split_on sep (a +:+ String sep b) = split_on sep a ++ split_on sep b.
Proof.
  induction a as [|c a IH].
  - rewrite append_nil_l. cbn [split_on]. by rewrite Ascii.eqb_refl.
  - rewrite append_cons. cbn [split_on]. rewrite IH.
    destruct (Ascii.eqb c sep); [reflexivity|].
    pose proof (split_on_nonempty sep a) as Hne.
    destruct (split_on sep a) as [|w ws]; [done|reflexivity].
Qed.

(** When both listings succeed, the collector returns: [services] is the
    first one as printed and [running_count] counts the lines of the second
    that mention a unit. For a listing made of two parts joined by a
    newline it is the sum of their counts, so the header and the footer
    count for nothing. *)
Theorem list_services_counts_unit_lines
    (os : exec) (str_error : list string → Z → string)
    (all part1 part2 : string) :
  os list_units_all = Returned {| stdout := all; returncode := 0 |} →
  os list_units_running
  = Returned {| stdout := part1 +:+ Network.newline +:+ part2; returncode := 0 |} →
  list_services os str_error
  = Returned
      {| services := all;
         running_count :=
           (length (unit_lines part1) + length (unit_lines part2))%nat |}.
Proof.
  intros H1 H2. unfold list_services, subprocess_run. rewrite H1, H2.
  cbn [returncode stdout andb negb Z.eqb]. do 2 f_equal.
  unfold unit_lines, Network.newline.
  change (part1 +:+ String "010" EmptyString +:+ part2)
    with (part1 +:+ String "010" part2).
  by rewrite split_on_app, List.filter_app, length_app.
Qed.

Lemma list_services_counts_unit_lines_witness :
  list_services
    (os_with_systemctl "UNIT LOAD"
       ("  UNIT LOAD ACTIVE SUB" +:+ Network.newline
        +:+ "  sshd.service loaded active running"))
    (λ _ _, "")
  = Returned
      {| services := "UNIT LOAD";
         running_count :=
           (length (unit_lines "  UNIT LOAD ACTIVE SUB")
            + length (unit_lines "  sshd.service loaded active running"))%nat |}.
Proof.
  by apply (list_services_counts_unit_lines _ _ "UNIT LOAD").
Defined.

(** A count other than zero vouches for the listing: both commands ran and
    exited with status 0, and [services] is what the first printed. A
    failure that is reported, of the second command too, leaves a count of
    0. *)
Theorem list_services_count_vouches
    (os : exec) (str_error : list string → Z → string) (r : services_result) :
  list_services os str_error = Returned r →
  running_count r ≠ 0%nat →
  ∃ all running,
    os list_units_all = Returned {| stdout := all; returncode := 0 |} ∧
    os list_units_running = Returned {| stdout := running; returncode := 0 |} ∧
    services r = all ∧
    running_count r = length (unit_lines running).
Proof.
  unfold list_services, subprocess_run.
  destruct (os list_units_all) as [[all rc1]|[[| |]| |]];
    try discriminate; try (by intros [= <-]).
  cbn [returncode stdout andb]. destruct (rc1 =? 0) eqn:E1;
    [|by intros [= <-]].
  apply Z.eqb_eq in E1 as ->. cbn [negb].
  destruct (os list_units_running) as [[running rc2]|[[| |]| |]];
    try discriminate; try (by intros [= <-]).
  cbn [returncode stdout andb]. destruct (rc2 =? 0) eqn:E2;
    [|by intros [= <-]].
  apply Z.eqb_eq in E2 as ->. cbn [negb]. intros [= <-] _. by exists all, running.
Qed.

Lemma list_services_count_vouches_witness :
  ∃ all running,
    os_with_systemctl "UNIT" "a.service" list_units_all
    = Returned {| stdout := all; returncode := 0 |} ∧
    os_with_systemctl "UNIT" "a.service" list_units_running
    = Returned {| stdout := running; returncode := 0 |} ∧
    services {| services := "UNIT"; running_count := 1 |} = all ∧
    running_count {| services := "UNIT"; running_count := 1 |}
    = length (unit_lines running).
Proof.
  apply (list_services_count_vouches (os_with_systemctl "UNIT" "a.service")
           (λ _ _, "")).
  - reflexivity.
  - discriminate.
Defined.



(** *** Reading the daemon's answer *)

Lemma map_chars_app (f : ascii → ascii) (a b : string) :
  map_chars f (a +:+ b) = map_chars f a +:+ map_chars f b.
Proof.
  induction a as [|c a IH]; [reflexivity|].
  rewrite append_cons. cbn [map_chars]. by rewrite IH, append_cons.
Qed.

Lemma prefix_app (n s : string) : String.prefix n (n +:+ s) = true.
Proof.
  induction n as [|c n IH]; [by destruct s|].
  rewrite append_cons. cbn [String.prefix]. by destruct (ascii_dec c c).
Qed.

Lemma contains_unfold (needle s : string) :
  contains needle s
  = if String.prefix needle s then true
    else match s with
         | EmptyString => false
         | String _ s' => contains needle s'
         end.
Proof. by destruct s. Qed.

(** [needle in s] holds of a text written around the needle. *)
Lemma contains_app (needle before after : string) :
  contains needle (before +:+ needle +:+ after) = true.
Proof.
  induction before as [|c before IH].
  - rewrite append_nil_l, contains_unfold. by rewrite prefix_app.
  - rewrite append_cons, contains_unfold.
    by destruct (String.prefix _ _).
Qed.

Lemma lower_in_place : lowers_in_place lower.
Proof.
  intros before s after _. exists (lower before), (lower after).
  unfold lower. by rewrite !map_chars_app.
Qed.

(** The status lookup recognises the daemon's two phrases for an unknown
    unit in any mix of upper and lower case and anywhere in the text,
    whatever the exit status: the result then carries the text as printed
    and the error naming the canonical unit. *)
Theorem get_service_status_any_case
    (str_lower : string → string)
    (os : exec) (service_name : string) (cp : CompletedProcess)
    (before phrase after : string) :
  lowers_in_place str_lower →
  os ["systemctl"; "status"; canonical service_name; "--no-pager"; "--full"]
  = Returned cp →
  stdout cp = before +:+ phrase +:+ after →
  is_ascii phrase →
  lower phrase = "could not be found" ∨ lower phrase = "not loaded" →
  (get_service_status str_lower os service_name).1
  = Returned
      {| text := stdout cp;
         error := Some ("Service '" +:+ canonical service_name +:+ "' not found") |}.
Proof.
  intros Hlower Hos Hout Hascii Hphrase. unfold get_service_status, subprocess_run.
  rewrite Hos. cbn [andb fst]. do 2 f_equal.
  destruct (Hlower before phrase after Hascii) as (before' & after' & E).
  rewrite Hout, E.
  destruct Hphrase as [-> | ->]; rewrite contains_app; [reflexivity|].
  by rewrite orb_true_r.
Qed.

Lemma get_service_status_any_case_witness :
  (get_service_status lower
     (λ _, Returned {| stdout := "Unit foo.service Could Not Be Found.";
                       returncode := 4 |})
     "foo").1
  = Returned
      {| text := "Unit foo.service Could Not Be Found.";
         error := Some ("Service '" +:+ canonical "foo" +:+ "' not found") |}.
Proof.
  apply (get_service_status_any_case lower _ "foo"
           {| stdout := "Unit foo.service Could Not Be Found."; returncode := 4 |}
           "Unit foo.service " "Could Not Be Found" ".").
  - exact lower_in_place.
  - reflexivity.
  - reflexivity.
  - repeat constructor.
  - by left.
Defined.


End ServiceMore.

(** ** More on the sizes and the disks *)

Module SystemMore.
Import Py PyFacts System SystemFacts.

(** The double of an integer of 54 bits or more lies between the powers of
    two around it. *)
Lemma float_of_int_magnitude (n : Z) :
  2 ^ 53 <= Z.abs n →
  ∃ m, 2 ^ Z.log2 (Z.abs n) <= m <= 2 ^ (Z.log2 (Z.abs n) + 1) ∧
       float_of_int n
       = if 2 ^ 1024 <=? m then None else Some (inject_Z (Z.sgn n * m)).
Proof.
  intros Hbig. unfold float_of_int.
  set (a := Z.abs n) in *.
  assert (0 < a) as Hpos by lia.
  destruct (Z.log2_spec a Hpos) as [L1 L2].
  assert (53 <= Z.log2 a) as Hl by (apply Z.log2_le_pow2; lia).
  set (e := Z.log2 a - 52) in *.
  assert (Z.log2 a = 52 + e) as El by lia.
  assert (Z.succ (Z.log2 a) = 53 + e) as El' by lia.
  rewrite El' in L2. rewrite El in L1 at 1.
  rewrite Z.pow_add_r in L1, L2 by lia.
  destruct (round_to_53_bits a e ltac:(lia) (conj L1 L2)) as [[M1 M2] _].
  cbv zeta in M1, M2 |- *.
  assert ((e <=? 0) = false) as -> by (apply Z.leb_gt; lia).
  match type of M1 with _ <= ?t => set (m := t) in * end.
  exists m. split; [|reflexivity].
  replace (Z.log2 a + 1) with (53 + e) by lia.
  rewrite El at 1. rewrite !Z.pow_add_r by lia. lia.
Qed.

Lemma size_loop_float_returns (us : list string) (x : Q) :
  ∃ s, size_loop us (PyFloat x) = Returned s.
Proof.
  revert x. induction us as [|u us IH]; intros x; cbn [size_loop format_f1 truediv_1024].
  - by eexists.
  - destruct (Qltb _ _); [by eexists|apply IH].
Qed.

Lemma size_loop_int_returns (us : list string) (n : Z) (x : Q) :
  float_of_int n = Some x → ∃ s, size_loop us (PyInt n) = Returned s.
Proof.
  intros Ef. destruct us as [|u us]; cbn [size_loop format_f1 truediv_1024];
    rewrite Ef; cbn [mbind option_bind]; [by eexists|].
  destruct (Qltb _ _); [by eexists|apply size_loop_float_returns].
Qed.

Lemma size_loop_int_raises (u : string) (us : list string) (n : Z) :
  float_of_int n = None → 1024 <= Z.abs n →
  size_loop (u :: us) (PyInt n) = Raised OverflowError.
Proof.
  intros Ef Hn. cbn [size_loop format_f1 truediv_1024 num_abs].
  assert (Qltb (inject_Z (Z.abs n)) 1024 = false) as ->.
  { apply Qltb_ge. change 1024%Q with (inject_Z 1024). by rewrite <- Zle_Qle. }
  by rewrite Ef.
Qed.

(** A size of magnitude below 2^1023, negative ones too, always gets its
    string; one of magnitude 2^1024 or more is beyond the doubles and the
    call raises OverflowError. *)
Theorem human_readable_size_range (size_bytes : Z) :
  (Z.abs size_bytes < 2 ^ 1023 → ∃ s, _human_readable_size size_bytes = Returned s) ∧
  (2 ^ 1024 <= Z.abs size_bytes →
   _human_readable_size size_bytes = Raised OverflowError).
Proof.
  assert (0 < 2 ^ 53) as P53 by reflexivity.
  split; intros H.
  - assert (∃ x, float_of_int size_bytes = Some x) as [x Ef].
    { destruct (Z_lt_le_dec (Z.abs size_bytes) (2 ^ 53)) as [Hs|Hb].
      - eexists. by apply float_of_int_exact.
      - destruct (float_of_int_magnitude size_bytes Hb) as (m & [_ M] & ->).
        assert ((2 ^ 1024 <=? m) = false) as ->; [|by eexists].
        apply Z.leb_gt. eapply Z.le_lt_trans; [exact M|].
        apply Z.pow_lt_mono_r; [lia|lia|].
        assert (Z.log2 (Z.abs size_bytes) < 1023); [|lia].
        apply Z.log2_lt_pow2; lia. }
    by apply (size_loop_int_returns _ _ x).
  - assert (float_of_int size_bytes = None) as Ef.
    { assert (2 ^ 53 <= Z.abs size_bytes) as Hb.
      { eapply Z.le_trans; [|exact H]. apply Z.pow_le_mono_r; lia. }
      destruct (float_of_int_magnitude size_bytes Hb) as (m & [M _] & ->).
      assert ((2 ^ 1024 <=? m) = true) as ->; [|reflexivity].
      apply Z.leb_le. eapply Z.le_trans; [|exact M].
      apply Z.pow_le_mono_r; [lia|]. apply Z.log2_le_pow2; lia. }
    apply size_loop_int_raises; [exact Ef|].
    eapply Z.le_trans; [|exact H]. apply (Z.pow_le_mono_r 2 10 1024); lia.
Qed.

Lemma human_readable_size_range_witness :
  (∃ s, _human_readable_size (-4096) = Returned s) ∧
  _human_readable_size (2 ^ 1024) = Raised OverflowError.
Proof.
  split.
  - apply (proj1 (human_readable_size_range (-4096))). reflexivity.
  - apply (proj2 (human_readable_size_range (2 ^ 1024))). discriminate.
Defined.

(** When no unit stops the loop, the statement after it prints what is
    left after one division per unit. *)
Lemma size_loop_runs_out (us : list string) (x : Q) :
  (∀ j, (j < length us)%nat → ¬ (Qabs (scaled x j) < 1024)%Q) →
  size_loop us (PyFloat x)
  = Returned (format_f1_Q (scaled x (length us)) +:+ "P").
Proof.
  revert x. induction us as [|u us IH]; intros x Hall; [reflexivity|].
  cbn [size_loop num_abs truediv_1024 length scaled].
  assert (Qltb (Qabs x) 1024 = false) as ->.
  { apply not_true_iff_false. rewrite Qltb_lt. apply (Hall 0%nat). cbn. lia. }
  apply IH. intros j Hj. apply (Hall (S j)). cbn. lia.
Qed.

(** From 1024^6 bytes on (and below 2^1023) the loop ends without a unit
    having stopped it: the size has been divided six times, once per unit,
    and what is printed under the suffix P is the size in units of 1024^6,
    not of 1024^5. *)
Theorem human_readable_size_beyond_P (size_bytes : Z) :
  1024 ^ 6 <= size_bytes < 2 ^ 1023 →
  ∃ x, float_of_int size_bytes = Some x ∧
       _human_readable_size size_bytes
       = Returned (format_f1_Q (scaled x 6) +:+ "P") ∧
       (1 <= scaled x 6)%Q.
Proof.
  intros [Hlo Hhi].
  assert (0 < 1024 ^ 6) as P6 by reflexivity.
  assert (Z.abs size_bytes = size_bytes) as Habs by lia.
  assert (2 ^ 53 <= Z.abs size_bytes) as Hb.
  { rewrite Habs. eapply Z.le_trans; [|exact Hlo]. discriminate. }
  destruct (float_of_int_magnitude size_bytes Hb) as (m & [M1 M2] & Ef).
  rewrite Habs in M1, M2.
  assert (60 <= Z.log2 size_bytes) as L1 by (apply Z.log2_le_pow2; [lia|exact Hlo]).
  assert (Z.log2 size_bytes < 1023) as L2 by (apply Z.log2_lt_pow2; lia).
  assert (1024 ^ 6 <= m) as Hm.
  { eapply Z.le_trans; [|exact M1]. apply (Z.pow_le_mono_r 2 60); lia. }
  assert ((2 ^ 1024 <=? m) = false) as Hfin.
  { apply Z.leb_gt. eapply Z.le_lt_trans; [exact M2|].
    apply Z.pow_lt_mono_r; lia. }
  rewrite Hfin, Z.sgn_pos, Z.mul_1_l in Ef by lia.
  exists (inject_Z m). split; [exact Ef|]. split.
  - unfold _human_readable_size, units.
    rewrite (size_loop_int_step _ _ size_bytes (inject_Z m)) by (trivial; lia).
    apply (size_loop_runs_out ["K"; "M"; "G"; "T"; "P"] (inject_Z m / 1024)).
    intros j Hj. cbn [length] in Hj.
    change (scaled (inject_Z m / 1024) j) with (scaled (inject_Z m) (S j)).
    rewrite scaled_int_lt by lia.
    assert (1024 ^ Z.of_nat (S (S j)) <= 1024 ^ 6)
      by (apply Z.pow_le_mono_r; lia).
    lia.
  - apply (scaled_int_ge_1 m 6). exact Hm.
Qed.

Lemma human_readable_size_beyond_P_witness :
  ∃ x, float_of_int (3 * 1024 ^ 6) = Some x ∧
       _human_readable_size (3 * 1024 ^ 6)
       = Returned (format_f1_Q (scaled x 6) +:+ "P") ∧
       (1 <= scaled x 6)%Q.
Proof.
  apply (human_readable_size_beyond_P (3 * 1024 ^ 6)).
  split; [discriminate|reflexivity].
Defined.

(** *** Disks *)

Lemma disk_loop_app (disk_usage : string → outcome os_error sdiskusage)
    (l1 l2 : list sdiskpart) (filesystems : list filesystem_info) :
  disk_loop disk_usage (l1 ++ l2) filesystems
  = match disk_loop disk_usage l1 filesystems with
    | Returned filesystems' => disk_loop disk_usage l2 filesystems'
    | Raised e => Raised e
    end.
Proof.
  revert filesystems. induction l1 as [|p l1 IH]; intros acc; [reflexivity|].
  cbn [app disk_loop]. destruct (_ || _); [apply IH|].
  destruct (disk_usage (mountpoint p)) as [u|]; [|apply IH].
  destruct (filesystem_entry p u); [apply IH|reflexivity].
Qed.

(** A partition of empty or squashfs type, or one whose usage cannot be
    read, is passed over: the outcome is that of the table without it. *)
Theorem get_disk_usage_skips
    (disk_usage : string → outcome os_error sdiskusage)
    (before after : list sdiskpart) (partition : sdiskpart) :
  listed disk_usage partition = false →
  get_disk_usage disk_usage (before ++ partition :: after)
  = get_disk_usage disk_usage (before ++ after).
Proof.
  intros Hp. unfold get_disk_usage. rewrite !disk_loop_app.
  destruct (disk_loop disk_usage before []) as [acc|]; [|reflexivity].
  cbn [disk_loop]. unfold listed in Hp.
  destruct (_ || _); [reflexivity|].
  by destruct (disk_usage (mountpoint partition)).
Qed.

Lemma get_disk_usage_skips_witness :
  get_disk_usage disk_usage_sample
    ([] ++ {| device := "tmpfs"; mountpoint := "/run"; fstype := "" |}
        :: partitions_sample)
  = get_disk_usage disk_usage_sample ([] ++ partitions_sample).
Proof. by apply get_disk_usage_skips. Defined.

Lemma filesystem_entry_returns (partition : sdiskpart) (usage : sdiskusage) :
  sizes_in_range usage →
  ∃ e, filesystem_entry partition usage = Returned e ∧
       filesystem e = device partition ∧ mounted_on e = mountpoint partition ∧
       use_percent e = round (du_percent usage) 1 ∧
       _human_readable_size (du_total usage) = Returned (size e) ∧
       _human_readable_size (du_used usage) = Returned (used e) ∧
       _human_readable_size (du_free usage) = Returned (available e).
Proof.
  intros (H1 & H2 & H3). unfold filesystem_entry.
  destruct (proj1 (human_readable_size_range _) H1) as [s1 ->].
  destruct (proj1 (human_readable_size_range _) H2) as [s2 ->].
  destruct (proj1 (human_readable_size_range _) H3) as [s3 ->].
  by eexists.
Qed.

Lemma disk_loop_lists (disk_usage : string → outcome os_error sdiskusage)
    (partitions : list sdiskpart) (filesystems : list filesystem_info) :
  (∀ p u, p ∈ partitions → disk_usage (mountpoint p) = Returned u →
          sizes_in_range u) →
  ∃ more,
    disk_loop disk_usage partitions filesystems = Returned (filesystems ++ more) ∧
    map (λ e, (filesystem e, mounted_on e)) more
    = map (λ p, (device p, mountpoint p)) (List.filter (listed disk_usage) partitions) ∧
    Forall (λ e, ∃ p u, p ∈ partitions ∧ disk_usage (mountpoint p) = Returned u ∧
                        filesystem_entry p u = Returned e) more.
Proof.
  revert filesystems. induction partitions as [|p l IH]; intros acc Hrange.
  - exists []. by rewrite app_nil_r.
  - assert (∀ p' u, p' ∈ l → disk_usage (mountpoint p') = Returned u →
                    sizes_in_range u) as Hl
      by (intros p' u Hin; apply Hrange; by right).
    assert (∀ more : list filesystem_info,
              Forall (λ e, ∃ p' u, p' ∈ l ∧ disk_usage (mountpoint p') = Returned u ∧
                                   filesystem_entry p' u = Returned e) more →
              Forall (λ e, ∃ p' u, p' ∈ p :: l ∧
                                   disk_usage (mountpoint p') = Returned u ∧
                                   filesystem_entry p' u = Returned e) more) as Hweak.
    { intros more Hmore. eapply Forall_impl; [exact Hmore|].
      intros e (p' & u & Hin & Hu & He).
      exists p', u. split; [by right|done]. }
    cbn [disk_loop List.filter]. unfold listed at 1.
    destruct (_ || _); cbn [negb andb].
    { destruct (IH acc Hl) as (more & -> & Hm & Hf). exists more. auto. }
    destruct (disk_usage (mountpoint p)) as [u|] eqn:Eu.
    + destruct (filesystem_entry_returns p u) as (e & He & Hd & Hmp & _);
        [apply (Hrange p u); [by left|exact Eu]|].
      rewrite He. destruct (IH (acc ++ [e]) Hl) as (more & -> & Hm & Hf).
      exists (e :: more). split; [by rewrite <- app_assoc|]. split.
      * cbn [map]. by rewrite Hd, Hmp, Hm.
      * constructor; [|auto]. exists p, u. split; [by left|done].
    + destruct (IH acc Hl) as (more & -> & Hm & Hf). exists more. auto.
Qed.

(** With sizes that a double can hold, the call returns one entry for each
    partition that is listed (a type other than empty and squashfs, a
    usage that could be read), in the order of the partition table and
    under its device and mount point; an unreadable mount costs its own
    entry only. *)
Theorem get_disk_usage_lists
    (disk_usage : string → outcome os_error sdiskusage)
    (partitions : list sdiskpart) :
  (∀ p u, p ∈ partitions → disk_usage (mountpoint p) = Returned u →
          sizes_in_range u) →
  ∃ filesystems,
    get_disk_usage disk_usage partitions = Returned filesystems ∧
    map (λ e, (filesystem e, mounted_on e)) filesystems
    = map (λ p, (device p, mountpoint p)) (List.filter (listed disk_usage) partitions) ∧
    (length filesystems <= length partitions)%nat ∧
    Forall (λ e, ∃ p u, p ∈ partitions ∧ disk_usage (mountpoint p) = Returned u ∧
                        filesystem_entry p u = Returned e) filesystems.
Proof.
  intros Hrange. unfold get_disk_usage.
  destruct (disk_loop_lists disk_usage partitions [] Hrange) as (fs & -> & Hm & Hf).
  exists fs. repeat split; trivial.
  apply (f_equal length) in Hm. rewrite !length_map in Hm. rewrite Hm.
  apply List.filter_length_le.
Qed.

Lemma get_disk_usage_lists_witness :
  ∃ filesystems,
    get_disk_usage disk_usage_sample partitions_sample = Returned filesystems ∧
    map (λ e, (filesystem e, mounted_on e)) filesystems
    = map (λ p, (device p, mountpoint p))
        (List.filter (listed disk_usage_sample) partitions_sample) ∧
    (length filesystems <= length partitions_sample)%nat ∧
    Forall (λ e, ∃ p u, p ∈ partitions_sample ∧
                        disk_usage_sample (mountpoint p) = Returned u ∧
                        filesystem_entry p u = Returned e) filesystems.
Proof.
  apply (get_disk_usage_lists disk_usage_sample partitions_sample).
  intros p u _. unfold disk_usage_sample.
  destruct (String.eqb _ _); [discriminate|]. intros [= <-].
  repeat split; reflexivity.
Defined.

End SystemMore.

(** ** The CPU record *)

Module CpuFacts.
Import Py PyFacts System ServiceFacts NetworkMore ServiceMore.

Lemma contains_char_cons_true (c a : ascii) (s : string) :
  contains (String c EmptyString) (String a s) = true →
  a = c ∨ contains (String c EmptyString) s = true.
Proof.
  cbn [contains String.prefix].
  destruct (ascii_dec c a) as [->|Hne]; [by left|]. by right.
Qed.

(** A text without the separator is one field. *)
Lemma split_on_single (sep : ascii) (s : string) :
  contains (String sep EmptyString) s = false → split_on sep s = [s].
Proof.
  induction s as [|a s IH]; intros H; [reflexivity|].
  apply contains_char_cons in H as [Ha H].
  cbn [split_on]. by rewrite Ha, (IH H).
Qed.


Lemma model_name_skips (before rest : list string) :
  Forall (λ l, ¬ mentions_model l) before →
  model_name (before ++ rest) = model_name rest.
Proof.
  induction 1 as [|l before Hl _ IH]; [reflexivity|]. cbn [app model_name].
  unfold mentions_model in Hl. by destruct (contains "model name" l).
Qed.


(** The model is read off the first line that mentions it and off no
    other: it is what stands between the first colon of that line and the
    next one (or the end of the line), stripped of white space. *)
Theorem get_cpu_info_model
    (os : cpu_platform) (before after : list string)
    (key field tail : string) (load : Q * Q * Q) :
  cpuinfo os = Returned (before ++ (key +:+ ":" +:+ field +:+ tail) :: after) →
  Forall (λ l, ¬ mentions_model l) before →
  mentions_model (key +:+ ":" +:+ field +:+ tail) →
  contains ":" key = false →
  contains ":" field = false →
  tail = "" ∨ (∃ t, tail = ":" +:+ t) →
  getloadavg os = Some load →
  ∃ r, get_cpu_info os = Returned r ∧ cpu_model r = strip field.
Proof.
  intros Hinfo Hbefore Hline Hkey Hfield Htail Hload.
  unfold get_cpu_info. rewrite Hinfo, Hload, (model_name_skips _ _ Hbefore).
  cbn [model_name]. unfold mentions_model in Hline. rewrite Hline.
  change (key +:+ ":" +:+ field +:+ tail) with (key +:+ String ":" (field +:+ tail)).
  rewrite (split_on_first _ _ _ Hkey).
  assert (∃ more, split_on ":" (field +:+ tail) = field :: more) as [more ->].
  { destruct Htail as [->|[t ->]].
    - exists []. replace (field +:+ "") with field.
      + by apply split_on_single.
      + clear. induction field as [|c f IH]; [reflexivity|].
        rewrite append_cons. by rewrite <- IH.
    - eexists. change (":" +:+ t) with (String ":" t).
      by apply split_on_first. }
  cbn [lookup list_lookup]. destruct load as [[l1 l5] l15]. by eexists.
Qed.

Lemma get_cpu_info_model_witness :
  ∃ r, get_cpu_info cpu_platform_sample = Returned r ∧
       cpu_model r = strip (" Virtual CPU @ 2.40GHz" +:+ String "010" "").
Proof.
  apply (get_cpu_info_model cpu_platform_sample
           ["processor" +:+ String "009" ": 0" +:+ String "010" ""]
           ["model name" +:+ String "009" ": Other" +:+ String "010" ""]
           ("model name" +:+ String "009" "")
           (" Virtual CPU @ 2.40GHz" +:+ String "010" "") ""
           (5 # 100, 1 # 10, 1 # 8)).
  - reflexivity.
  - repeat constructor. discriminate.
  - reflexivity.
  - reflexivity.
  - reflexivity.
  - by left.
  - reflexivity.
Defined.


End CpuFacts.

(** ** The system identity *)

Module InfoFacts.
Import Py PyFacts System ServiceFacts NetworkMore ServiceMore CpuFacts.

(** *** Texts and their characters *)

Lemma append_nil_r (s : string) : s +:+ "" = s.
Proof. induction s as [|c s IH]; [reflexivity|]. by rewrite append_cons, IH. Qed.

Lemma append_assoc (a b c : string) : (a +:+ b) +:+ c = a +:+ b +:+ c.
Proof. induction a as [|x a IH]; [reflexivity|]. by rewrite !append_cons, IH. Qed.

Lemma rev_app_append (a b acc : string) :
  String.rev_app (a +:+ b) acc = String.rev_app b (String.rev_app a acc).
Proof.
  revert acc. induction a as [|x a IH]; intros acc; [reflexivity|].
  rewrite append_cons. cbn [String.rev_app]. apply IH.
Qed.

Lemma rev_app_rev_app (s acc1 acc2 : string) :
  String.rev_app (String.rev_app s acc1) acc2 = String.rev_app acc1 (s +:+ acc2).
Proof.
  revert acc1 acc2. induction s as [|x s IH]; intros acc1 acc2; [reflexivity|].
  cbn [String.rev_app]. by rewrite IH.
Qed.

Lemma rev_involutive (s : string) : String.rev (String.rev s) = s.
Proof. unfold String.rev. rewrite rev_app_rev_app. cbn. apply append_nil_r. Qed.

Lemma rev_append (a b : string) :
  String.rev (a +:+ b) = String.rev b +:+ String.rev a.
Proof.
  unfold String.rev. rewrite rev_app_append.
  generalize (String.rev_app a ""). clear a. intros acc.
  revert acc. induction b as [|x b IH]; intros acc; [reflexivity|].
  cbn [String.rev_app]. rewrite IH, (IH (String x "")).
  by rewrite append_assoc.
Qed.

Lemma chars_cons (c : ascii) (s : string) : chars (String c s) = c :: chars s.
Proof. reflexivity. Qed.

Lemma chars_append (a b : string) : chars (a +:+ b) = chars a ++ chars b.
Proof.
  induction a as [|x a IH]; [reflexivity|].
  rewrite append_cons. cbn. f_equal. exact IH.
Qed.

Lemma chars_rev (s : string) : chars (String.rev s) = rev (chars s).
Proof.
  induction s as [|x s IH]; [reflexivity|].
  change (String x s) with (String x "" +:+ s).
  rewrite rev_append, !chars_append, IH. reflexivity.
Qed.

(** *** White space at the end of a line *)

(** A white-space character is one ASCII byte, or two or three bytes
    outside ASCII. *)
Lemma space_len_bytes (c : ascii) (s : string) (k : nat) :
  space_len (String c s) = S k →
  (isspace c = true ∨ (128 <= code c)%N) ∧
  Forall (λ a, (128 <= code a)%N) (take k (chars s)).
Proof.
  unfold space_len. destruct (isspace c) eqn:Ec.
  { intros [= <-]. split; [by left|constructor]. }
  destruct s as [|d s]; [discriminate|].
  destruct (isspace2 c d) eqn:E2.
  { intros [= <-]. unfold isspace2 in E2.
    repeat first [rewrite andb_true_iff in E2 | rewrite orb_true_iff in E2].
    rewrite ?N.eqb_eq in E2.
    split; [right; lia|]. repeat constructor. lia. }
  destruct s as [|e s]; [discriminate|].
  destruct (isspace3 c d e) eqn:E3; [|discriminate].
  intros [= <-]. unfold isspace3 in E3.
  repeat first [rewrite andb_true_iff in E3 | rewrite orb_true_iff in E3].
  rewrite ?N.eqb_eq, ?N.leb_le in E3.
  split; [right; lia|]. repeat constructor; lia.
Qed.

(** A text that [lstrip] takes away whole is made of such bytes. *)
Lemma lstrip_go_blank (s : string) (k : nat) :
  Forall (λ a, (128 <= code a)%N) (take k (chars s)) →
  lstrip_go k s = "" →
  Forall (λ a, isspace a = true ∨ (128 <= code a)%N) (chars s).
Proof.
  revert k. induction s as [|c s IH]; intros k Hk H; [constructor|].
  rewrite chars_cons in *. destruct k as [|k]; cbn [lstrip_go] in H.
  - destruct (space_len (String c s)) as [|j] eqn:El; [discriminate|].
    apply space_len_bytes in El as [Hc Hj].
    constructor; [exact Hc|]. by apply (IH j).
  - cbn [take] in Hk. apply Forall_cons in Hk as [Hc Hk].
    constructor; [by right|]. by apply (IH k).
Qed.

(** A text with an ASCII character that is not white space is not blank. *)
Lemma blank_false (s : string) (c : ascii) :
  c ∈ chars s → isspace c = false → (code c < 128)%N → blank s = false.
Proof.
  intros Hin Hsp Hc. unfold blank, lstrip.
  destruct (lstrip_go 0 s) eqn:E; [|reflexivity].
  apply lstrip_go_blank in E; [|constructor].
  rewrite Forall_forall in E. destruct (E c Hin); [congruence|lia].
Qed.

(** [rstrip] stops at such a character. *)
Lemma rstrip_keeps (p t : string) (c : ascii) :
  isspace c = false → (code c < 128)%N →
  rstrip (p +:+ String c t) = p +:+ String c (rstrip t).
Proof.
  intros Hsp Hc. induction p as [|a p IH].
  - rewrite append_nil_l. cbn [rstrip].
    rewrite (blank_false _ c); trivial. rewrite chars_cons. apply list_elem_of_here.
  - rewrite append_cons. cbn [rstrip]. rewrite (blank_false _ c), IH; trivial.
    rewrite chars_cons, chars_append, chars_cons.
    apply list_elem_of_further, elem_of_app. right. apply list_elem_of_here.
Qed.

Lemma space_len_newline (c : ascii) (u : string) :
  space_len (String c (u +:+ String "010" "")) = space_len (String c u).
Proof.
  unfold space_len. destruct (isspace c); [reflexivity|].
  destruct u as [|d u].
  - rewrite append_nil_l. unfold isspace2. change (code "010") with 10%N.
    cbn. by rewrite andb_false_r.
  - rewrite append_cons. destruct (isspace2 c d); [reflexivity|].
    destruct u as [|e u]; [|by rewrite append_cons].
    rewrite append_nil_l. unfold isspace3. change (code "010") with 10%N.
    cbn. by rewrite !andb_false_r.
Qed.

Lemma lstrip_go_newline (u : string) (k : nat) :
  lstrip_go k (u +:+ String "010" "") = "" ↔ lstrip_go k u = "".
Proof.
  revert k. induction u as [|c u IH]; intros k.
  - rewrite append_nil_l. by destruct k.
  - rewrite append_cons. destruct k as [|k]; cbn [lstrip_go]; [|apply IH].
    rewrite space_len_newline.
    destruct (space_len (String c u)) as [|j]; [done|apply IH].
Qed.

Lemma blank_newline (u : string) : blank (u +:+ String "010" "") = blank u.
Proof.
  unfold blank, lstrip. pose proof (lstrip_go_newline u 0) as H.
  destruct (lstrip_go 0 (u +:+ String "010" "")), (lstrip_go 0 u);
    try reflexivity; destruct H as [H1 H2]; [by discriminate H1|by discriminate H2].
Qed.

(** The newline that ends a line goes, and nothing else of a text that
    does not end in white space. *)
Lemma rstrip_newline (t : string) :
  rstrip t = t → rstrip (t +:+ String "010" "") = t.
Proof.
  induction t as [|c t IH]; [reflexivity|]. cbn [rstrip].
  destruct (blank (String c t)) eqn:Eb; [discriminate|]. intros [= Ht].
  rewrite append_cons. cbn [rstrip].
  rewrite <- append_cons, blank_newline, Eb. by rewrite (IH Ht).
Qed.

(** A text is what is left of it after [rstrip], before white space. *)
Lemma rstrip_prefix (s : string) :
  ∃ ws, s = rstrip s +:+ ws ∧ (ws = "" ∨ blank ws = true).
Proof.
  induction s as [|c s (ws & E & H)]; [exists ""; by split; [|left]|].
  cbn [rstrip]. destruct (blank (String c s)) eqn:Eb.
  - exists (String c s). split; [reflexivity|by right].
  - exists ws. split; [|exact H]. by rewrite append_cons, <- E.
Qed.

Lemma lstrip_char_other (c : ascii) (s : string) :
  head (chars s) ≠ Some c → lstrip_char c s = s.
Proof.
  destruct s as [|a s]; [reflexivity|]. cbn. intros H.
  destruct (Ascii.eqb_spec a c) as [->|]; [done|reflexivity].
Qed.

Lemma lstrip_char_same (c : ascii) (s : string) :
  lstrip_char c (String c s) = lstrip_char c s.
Proof. cbn [lstrip_char]. by rewrite Ascii.eqb_refl. Qed.

(** [strip] of a character takes a pair of them around a text that neither
    starts nor ends with it, and leaves such a text alone. *)
Lemma strip_char_around (c : ascii) (s : string) :
  head (chars s) ≠ Some c → last (chars s) ≠ Some c →
  strip_char c s = s ∧ strip_char c (String c (s +:+ String c "")) = s.
Proof.
  intros Hh Hl.
  assert (lstrip_char c (String.rev s) = String.rev s) as Hrev.
  { apply lstrip_char_other. rewrite chars_rev.
    destruct (chars s) as [|a l] using rev_ind; [done|].
    rewrite rev_app_distr. rewrite last_snoc in Hl. cbn. congruence. }
  assert (strip_char c s = s) as Hs.
  { unfold strip_char. rewrite (lstrip_char_other c s Hh), Hrev.
    apply rev_involutive. }
  split; [exact Hs|].
  unfold strip_char. rewrite lstrip_char_same.
  destruct s as [|a s].
  - rewrite append_nil_l, lstrip_char_same. reflexivity.
  - rewrite (lstrip_char_other c (String a s +:+ String c "")).
    + rewrite rev_append. change (String.rev (String c "")) with (String c "").
      rewrite append_cons, append_nil_l, lstrip_char_same, Hrev.
      apply rev_involutive.
    + rewrite append_cons. exact Hh.
Qed.

(** *** The lines of /etc/os-release *)

Lemma contains_char_chars (c : ascii) (s : string) :
  contains (String c "") s = true ↔ c ∈ chars s.
Proof.
  induction s as [|a s IH]; [by rewrite elem_of_nil|].
  cbn [chars list_ascii_of_string]. fold (chars s). rewrite elem_of_cons, <- IH.
  cbn [contains String.prefix].
  destruct (ascii_dec c a) as [->|Hne].
  - split; [by left|]. by destruct s.
  - split; [by right|]. by intros [|].
Qed.

Lemma contains_rstrip (c : ascii) (s : string) :
  isspace c = false → (code c < 128)%N →
  contains (String c "") s = true → contains (String c "") (rstrip s) = true.
Proof.
  intros Hsp Hc. rewrite !contains_char_chars.
  destruct (rstrip_prefix s) as (ws & E & Hws). rewrite E at 1.
  rewrite chars_append, elem_of_app. intros [H|H]; [exact H|].
  destruct Hws as [->|Hws]; [by apply elem_of_nil in H|].
  by rewrite (blank_false ws c H Hsp Hc) in Hws.
Qed.

(** [split(sep, 1)] of a text with the separator is a pair, cut at the
    first one. *)
Lemma split_once_pair (sep : ascii) (s : string) :
  contains (String sep "") s = true →
  ∃ k v, split_once sep s = [k; v] ∧ s = k +:+ String sep v.
Proof.
  induction s as [|a s IH]; intros H; [discriminate|].
  cbn [split_once]. destruct (Ascii.eqb_spec a sep) as [->|Hne].
  - by exists "", s.
  - apply contains_char_cons_true in H as [->|H]; [done|].
    destruct (IH H) as (k & v & -> & ->). by exists (String a k), v.
Qed.

Lemma split_once_first (sep : ascii) (key rest : string) :
  contains (String sep "") key = false →
  split_once sep (key +:+ String sep rest) = [key; rest].
Proof.
  induction key as [|a key IH]; intros H.
  - rewrite append_nil_l. cbn [split_once]. by rewrite Ascii.eqb_refl.
  - apply contains_char_cons in H as [Ha H].
    rewrite append_cons. cbn [split_once]. by rewrite Ha, (IH H).
Qed.

(** A line without [=] changes nothing; one with it is unpacked into a key
    and a value, the unpacking never failing. *)
Lemma os_release_line_cases (os_release : gmap string string) (line : string) :
  os_release_line os_release line = Returned os_release ∧
  contains "=" line = false
  ∨ ∃ key value,
      os_release_line os_release line
      = Returned (<[key := strip_char quote value]> os_release) ∧
      rstrip line = key +:+ "=" +:+ value.
Proof.
  unfold os_release_line. destruct (contains "=" line) eqn:E; [right|by left].
  apply (contains_rstrip "=") in E; [|reflexivity|reflexivity].
  destruct (split_once_pair _ _ E) as (k & v & -> & Hr). by exists k, v.
Qed.

Lemma prefix_append (p a b : string) :
  String.prefix p a = true → String.prefix p (a +:+ b) = true.
Proof.
  revert a. induction p as [|x p IH]; intros a H; [by destruct (a +:+ b)|].
  destruct a as [|y a]; [discriminate|]. rewrite append_cons.
  cbn [String.prefix] in *. destruct (ascii_dec x y); [by apply IH|done].
Qed.

Lemma os_release_line_other (key : string) (os_release os_release' : gmap string string)
    (line : string) :
  assigns key line = false →
  os_release_line os_release line = Returned os_release' →
  os_release' !! key = os_release !! key.
Proof.
  intros Hk.
  destruct (os_release_line_cases os_release line)
    as [[-> _]|(k & v & -> & Hr)]; intros [= <-]; [reflexivity|].
  apply lookup_insert_ne. intros ->.
  destruct (rstrip_prefix line) as (ws & E & _).
  unfold assigns in Hk. rewrite E, Hr in Hk.
  replace ((key +:+ "=" +:+ v) +:+ ws) with ((key +:+ "=") +:+ v +:+ ws) in Hk
    by (by rewrite !append_assoc).
  by rewrite prefix_app in Hk.
Qed.

Lemma read_os_release_app (l1 l2 : list string) (os_release : gmap string string) :
  read_os_release (l1 ++ l2) os_release
  = match read_os_release l1 os_release with
    | Returned os_release' => read_os_release l2 os_release'
    | Raised e => Raised e
    end.
Proof.
  revert os_release. induction l1 as [|l l1 IH]; intros m; [reflexivity|].
  cbn [app read_os_release]. by destruct (os_release_line m l).
Qed.

Lemma read_os_release_returns (lines : list string) (os_release : gmap string string) :
  ∃ os_release', read_os_release lines os_release = Returned os_release'.
Proof.
  revert os_release. induction lines as [|l lines IH]; intros m; [by eexists|].
  cbn [read_os_release].
  destruct (os_release_line_cases m l) as [[-> _]|(k & v & -> & _)]; apply IH.
Qed.

Lemma read_os_release_other (key : string) (lines : list string)
    (os_release os_release' : gmap string string) :
  Forall (λ l, assigns key l = false) lines →
  read_os_release lines os_release = Returned os_release' →
  os_release' !! key = os_release !! key.
Proof.
  intros Hall. revert os_release.
  induction Hall as [|l lines Hl _ IH]; intros m; [by intros [= <-]|].
  cbn [read_os_release]. destruct (os_release_line m l) as [m1|] eqn:E; [|done].
  intros H. rewrite (IH _ H). by apply (os_release_line_other key m m1 l).
Qed.

(** A line written as an entry is read back as its key and value. *)
Lemma os_release_line_entry (os_release : gmap string string)
    (key value : string) (quoted : bool) :
  contains "=" key = false → plain value →
  os_release_line os_release (os_release_entry key value quoted)
  = Returned (<[key := value]> os_release).
Proof.
  intros Hkey (Hh & Hl & Hsp).
  destruct (strip_char_around quote value Hh Hl) as [Hbare Hquoted].
  assert (∃ body, os_release_entry key value quoted
                  = key +:+ String "=" (body +:+ String "010" "") ∧
                  rstrip body = body ∧
                  strip_char quote body = value) as (body & -> & Hr & Hs).
  { destruct quoted.
    - exists (String quote (value +:+ String quote "")).
      split; [reflexivity|]. split; [|exact Hquoted].
      rewrite <- append_cons.
      by rewrite rstrip_keeps by reflexivity.
    - by exists value. }
  unfold os_release_line.
  assert (contains "=" (key +:+ String "=" (body +:+ String "010" "")) = true) as ->.
  { change (String "=" (body +:+ String "010" ""))
      with ("=" +:+ (body +:+ String "010" "")).
    apply contains_app. }
  rewrite rstrip_keeps by reflexivity. rewrite (rstrip_newline body Hr).
  by rewrite (split_once_first _ _ _ Hkey), Hs.
Qed.

(** *** The two [uptime] commands *)

Lemma uptime_text_returns (run : exec) (flag : string) :
  runs_or_missing run ["uptime"; flag] →
  ∃ text,
    uptime_text run flag = Returned text ∧
    (match run ["uptime"; flag] with
     | Returned cp => returncode cp ≠ 0
     | Raised _ => True
     end → text = "Unknown") ∧
    (∀ cp, run ["uptime"; flag] = Returned cp → returncode cp = 0 →
           text = strip (stdout cp)).
Proof.
  unfold runs_or_missing, uptime_text, subprocess_run.
  destruct (run ["uptime"; flag]) as [cp|[[| |]| |]]; try done; intros _.
  - cbn [andb]. destruct (returncode cp =? 0) eqn:E; cbn [negb].
    + apply Z.eqb_eq in E. eexists. split; [reflexivity|].
      split; [done|]. by intros ? [= <-] _.
    + apply Z.eqb_neq in E. eexists. split; [reflexivity|].
      split; [done|]. by intros ? [= <-] ?.
  - eexists. split; [reflexivity|]. by split.
Qed.

Lemma uptime_text_raises (run : exec) (flag : string) (e : info_error) :
  uptime_text run flag = Raised e →
  ∃ io, e = RunError (Io io) ∧ run ["uptime"; flag] = Raised io ∧
        io ≠ Os FileNotFoundError.
Proof.
  unfold uptime_text, subprocess_run.
  destruct (run ["uptime"; flag]) as [cp|[[| |]| |]];
    try (destruct (_ && _)); try discriminate;
    intros [= <-]; by eexists.
Qed.

(** The call returns whenever the file can be read or is not there, and
    each [uptime] command runs to its end or is not there: no line of
    /etc/os-release makes the unpacking fail. Host name, kernel and
    architecture are the platform's. Without the file, or without a line
    that assigns NAME (VERSION), the system name (version) is Unknown; an
    [uptime] command that is missing or exits with another status than 0
    leaves Unknown in its field, one that exits with 0 its output
    stripped. *)
Theorem get_system_info_returns (pf : system_platform) (run : exec) :
  (∀ e, os_release_file pf = Raised e → e = Os FileNotFoundError) →
  runs_or_missing run ["uptime"; "-p"] →
  runs_or_missing run ["uptime"; "-s"] →
  ∃ r,
    get_system_info pf run = Returned r ∧
    hostname r = node pf ∧ kernel r = release pf ∧ architecture r = machine pf ∧
    (os_release_file pf = Raised (Os FileNotFoundError) →
     os r = "Unknown" ∧ os_version r = "Unknown") ∧
    (∀ lines, os_release_file pf = Returned lines →
              (Forall (λ l, assigns "NAME" l = false) lines → os r = "Unknown") ∧
              (Forall (λ l, assigns "VERSION" l = false) lines →
               os_version r = "Unknown")) ∧
    (match run ["uptime"; "-p"] with
     | Returned cp => returncode cp ≠ 0
     | Raised _ => True
     end → uptime r = "Unknown") ∧
    (∀ cp, run ["uptime"; "-p"] = Returned cp → returncode cp = 0 →
           uptime r = strip (stdout cp)) ∧
    (match run ["uptime"; "-s"] with
     | Returned cp => returncode cp ≠ 0
     | Raised _ => True
     end → boot_time r = "Unknown") ∧
    (∀ cp, run ["uptime"; "-s"] = Returned cp → returncode cp = 0 →
           boot_time r = strip (stdout cp)).
Proof.
  intros Hfile Hp Hs. unfold get_system_info.
  destruct (uptime_text_returns run "-p" Hp) as (up & -> & Hup1 & Hup2).
  destruct (uptime_text_returns run "-s" Hs) as (bt & -> & Hbt1 & Hbt2).
  destruct (os_release_file pf) as [lines|e].
  - destruct (read_os_release_returns lines ∅) as [m Hm]. rewrite Hm.
    eexists. split; [reflexivity|].
    cbn [hostname kernel architecture os os_version uptime boot_time].
    split; [reflexivity|]. split; [reflexivity|]. split; [reflexivity|].
    split; [discriminate|].
    split; [|split; [exact Hup1|split; [exact Hup2|split; [exact Hbt1|exact Hbt2]]]].
    intros ? [= <-]. split; intros Hall.
    + by rewrite (read_os_release_other "NAME" lines ∅ m Hall Hm), lookup_empty.
    + by rewrite (read_os_release_other "VERSION" lines ∅ m Hall Hm), lookup_empty.
  - rewrite (Hfile e eq_refl).
    eexists. split; [reflexivity|].
    cbn [hostname kernel architecture os os_version uptime boot_time].
    split; [reflexivity|]. split; [reflexivity|]. split; [reflexivity|].
    split; [done|].
    split; [discriminate|].
    split; [exact Hup1|split; [exact Hup2|split; [exact Hbt1|exact Hbt2]]].
Qed.

Lemma get_system_info_returns_witness :
  ∃ r,
    get_system_info
      {| node := "host"; os_release_file := Raised (Os FileNotFoundError);
         release := "6.11.4"; machine := "x86_64" |}
      (λ _, Raised (Os FileNotFoundError)) = Returned r ∧
    hostname r = "host" ∧ os r = "Unknown" ∧ uptime r = "Unknown".
Proof.
  destruct (get_system_info_returns
              {| node := "host"; os_release_file := Raised (Os FileNotFoundError);
                 release := "6.11.4"; machine := "x86_64" |}
              (λ _, Raised (Os FileNotFoundError)))
    as (r & Hr & Hh & _ & _ & Ho & _ & Hu & _).
  - by intros e [= <-].
  - exact I.
  - exact I.
  - exists r. split; [exact Hr|]. split; [exact Hh|].
    split; [by apply Ho|by apply Hu].
Defined.

(** What escapes the call is what reading /etc/os-release raised, other
    than the absence of the file, or what running one of the two [uptime]
    commands raised, other than the absence of the program; the unpacking
    of a line never fails. *)
Theorem get_system_info_raises
    (pf : system_platform) (run : exec) (e : info_error) :
  get_system_info pf run = Raised e →
  match e with
  | UnpackError => False
  | ReadError io => os_release_file pf = Raised io ∧ io ≠ Os FileNotFoundError
  | RunError err =>
      ∃ flag io, (flag = "-p" ∨ flag = "-s") ∧ err = Io io ∧
                 run ["uptime"; flag] = Raised io ∧ io ≠ Os FileNotFoundError
  end.
Proof.
  unfold get_system_info.
  assert (∀ names : string * string,
             match uptime_text run "-p" with
             | Raised e => Raised e
             | Returned uptime =>
                 match uptime_text run "-s" with
                 | Raised e => Raised e
                 | Returned boot_time =>
                     Returned {| hostname := node pf; os := names.1;
                                 os_version := names.2; kernel := release pf;
                                 architecture := machine pf; uptime := uptime;
                                 boot_time := boot_time |}
                 end
             end = Raised e →
             match e with
             | UnpackError => False
             | ReadError io =>
                 os_release_file pf = Raised io ∧ io ≠ Os FileNotFoundError
             | RunError err =>
                 ∃ flag io, (flag = "-p" ∨ flag = "-s") ∧ err = Io io ∧
                            run ["uptime"; flag] = Raised io ∧
                            io ≠ Os FileNotFoundError
             end) as Hrun.
  { intros names.
    destruct (uptime_text run "-p") as [up|e1] eqn:E1.
    - destruct (uptime_text run "-s") as [bt|e2] eqn:E2; [discriminate|].
      intros [= <-]. apply uptime_text_raises in E2 as (io & -> & Hio & Hne).
      exists "-s", io. by repeat split; [right|..].
    - intros [= <-]. apply uptime_text_raises in E1 as (io & -> & Hio & Hne).
      exists "-p", io. by repeat split; [left|..]. }
  destruct (os_release_file pf) as [lines|[[| |]| |]].
  - destruct (read_os_release_returns lines ∅) as [m ->].
    apply (Hrun (_, _)).
  - apply (Hrun (_, _)).
  - by intros [= <-].
  - by intros [= <-].
  - by intros [= <-].
  - by intros [= <-].
Qed.

Lemma get_system_info_raises_witness :
  os_release_file
    {| node := "host"; os_release_file := Raised (Os PermissionError);
       release := "6.11.4"; machine := "x86_64" |}
  = Raised (Os PermissionError) ∧
  Os PermissionError ≠ Os FileNotFoundError.
Proof.
  apply (get_system_info_raises
           {| node := "host"; os_release_file := Raised (Os PermissionError);
              release := "6.11.4"; machine := "x86_64" |}
           (λ _, Raised (Os FileNotFoundError))
           (ReadError (Os PermissionError))).
  reflexivity.
Defined.

(** The file is read from top to bottom and a later assignment replaces an
    earlier one: the value of the last line that assigns a key, written
    bare or between double quotes, is the value found under that key,
    whatever stands above it. *)
Theorem get_system_info_os_release
    (pf : system_platform) (run : exec) (before after : list string)
    (key value : string) (quoted : bool) :
  os_release_file pf
  = Returned (before ++ os_release_entry key value quoted :: after) →
  runs_or_missing run ["uptime"; "-p"] →
  runs_or_missing run ["uptime"; "-s"] →
  contains "=" key = false →
  plain value →
  Forall (λ l, assigns key l = false) after →
  ∃ r, get_system_info pf run = Returned r ∧
       (key = "NAME" → os r = value) ∧
       (key = "VERSION" → os_version r = value).
Proof.
  intros Hfile Hp Hs Hkey Hvalue Hafter. unfold get_system_info. rewrite Hfile.
  destruct (uptime_text_returns run "-p" Hp) as (up & -> & _).
  destruct (uptime_text_returns run "-s" Hs) as (bt & -> & _).
  rewrite read_os_release_app.
  destruct (read_os_release_returns before ∅) as [m0 ->].
  cbn [read_os_release]. rewrite (os_release_line_entry _ _ _ _ Hkey Hvalue).
  destruct (read_os_release_returns after (<[key := value]> m0)) as [m Hm].
  rewrite Hm. eexists. split; [reflexivity|]. cbn [os os_version].
  pose proof (read_os_release_other key after _ m Hafter Hm) as Hlook.
  rewrite lookup_insert_eq in Hlook.
  split; intros ->; by rewrite Hlook.
Qed.

Lemma get_system_info_os_release_witness :
  ∃ r, get_system_info
         {| node := "host"; os_release_file := Returned os_release_sample;
            release := "6.11.4"; machine := "x86_64" |}
         (λ _, Raised (Os FileNotFoundError)) = Returned r ∧
       ("NAME" = "NAME" → os r = "Fedora Linux") ∧
       ("NAME" = "VERSION" → os_version r = "Fedora Linux").
Proof.
  apply (get_system_info_os_release _ _ []
           [os_release_entry "VERSION" "41 (Workstation Edition)" true;
            "# comment" +:+ String "010" "";
            os_release_entry "ID" "fedora" false] "NAME" "Fedora Linux" true).
  - reflexivity.
  - exact I.
  - exact I.
  - reflexivity.
  - repeat split; discriminate.
  - repeat constructor.
Defined.

End InfoFacts.
